(** * Shepherd: the versioned configuration store and its webhook notifier

    A shallow embedding of [database.py] (class [ConfigurationManager]) and of
    [webhooks.py] (the delivery path [dispatch_webhook_async] /
    [dispatch_with_retry]), followed by the properties of the versioned store
    and of the retrying notifier.

    Python methods are written as programs over the calls they make on the
    MongoDB collection ([find_one], [insert_one], [aggregate], ...) and on the
    wall clock.  A call either returns or raises; [try ... except] is a
    combinator on programs.  Programs are given meaning by an interpreter
    over an explicit [World]: the collection in insertion order, the next
    ObjectId, the wall clock, whether the server is reachable, and which
    documents the driver refuses to store. *)

From stdpp Require Import base strings list gmap sorting pretty.
From Stdlib Require Import ZArith Lia.

Open Scope Z_scope.

(** * database.py *)

(** ** Values *)

(** JSON values, as stored under ["settings"]. *)
#[local] Set Warnings "-register-all".
Inductive Json : Type :=
| JNull
| JBool (b : bool)
| JNum (n : Z)
| JStr (s : string)
| JArr (items : list Json)
| JObj (members : list (string * Json)).
#[local] Set Warnings "register-all".

Definition ObjectId := nat.

(** One stored version of a configuration: the keys of the dict built by
    [create_config], [update_config] and [rollback_config].  [_id] is absent
    until [insert_one] assigns it; the textual rendering [str(ObjectId)] is
    identified with the ObjectId itself. *)
Record Document : Type := mkDocument {
  _id : option ObjectId;
  config_id : string;
  version : Z;
  app_name : string;
  environment : string;
  settings : Json;
  created_at : string;
  updated_at : string;
  updated_by : option string;
  change_notes : string
}.

Definition with_id (d : Document) (oid : ObjectId) : Document :=
  mkDocument (Some oid) (config_id d) (version d) (app_name d) (environment d)
             (settings d) (created_at d) (updated_at d) (updated_by d)
             (change_notes d).

(** The [config_data] argument of [create_config]: a dict in which any of the
    four required keys may be missing. *)
Record ConfigData : Type := mkConfigData {
  cd_config_id : option string;
  cd_app_name : option string;
  cd_environment : option string;
  cd_settings : option Json
}.

(** ** Exceptions and results *)

Inductive PyExc : Type :=
| ValueError (msg : string)
| RuntimeError (msg : string)
| DuplicateKeyError (msg : string)
| ConnectionFailure (msg : string)
| RequestsConnectionError (msg : string)
| RetryError (last_attempt : string)
| OverflowError (msg : string)
| InvalidDocument (msg : string).

(** [str(e)] *)
Definition exc_str (e : PyExc) : string :=
  match e with
  | ValueError m | RuntimeError m | DuplicateKeyError m | ConnectionFailure m
  | RequestsConnectionError m | RetryError m | OverflowError m
  | InvalidDocument m => m
  end.

Inductive PyResult (A : Type) : Type :=
| Ret (a : A)
| Raise (e : PyExc).
Arguments Ret {A} a.
Arguments Raise {A} e.

Definition is_ret {A} (r : PyResult A) : bool :=
  match r with Ret _ => true | Raise _ => false end.

(** Python truthiness of an optional string: [None] and [""] are falsy. *)
Definition truthy (s : option string) : bool :=
  match s with
  | None => false
  | Some s => negb (String.eqb s "")
  end.

(** [s or default] for an optional string [s]. *)
Definition or_default (s : option string) (default : string) : string :=
  match s with
  | Some s => if String.eqb s "" then default else s
  | None => default
  end.

(** ** The collection *)

(** Equality filters such as [{"config_id": c, "version": v}]. *)
Record Query : Type := mkQuery {
  q_config_id : option string;
  q_version : option Z;
  q_app_name : option string;
  q_environment : option string
}.

Definition by_config_id (c : string) : Query := mkQuery (Some c) None None None.
Definition by_config_id_version (c : string) (v : Z) : Query :=
  mkQuery (Some c) (Some v) None None.

Definition opt_eqb {A} (eqb : A -> A -> bool) (o : option A) (a : A) : bool :=
  match o with
  | None => true
  | Some x => eqb x a
  end.

Definition matches (q : Query) (d : Document) : bool :=
  opt_eqb String.eqb (q_config_id q) (config_id d)
  && opt_eqb Z.eqb (q_version q) (version d)
  && opt_eqb String.eqb (q_app_name q) (app_name d)
  && opt_eqb String.eqb (q_environment q) (environment d).

(** The world a request runs in. [docs] is the [configurations] collection in
    insertion order; [outage], when set, is the text of the driver error that
    every call on the collection raises; [clock] is what
    [datetime.utcnow().isoformat()] returns; [refused] is what the driver or
    the server raises for a document it will not store for what is in it (an
    integer beyond 8 bytes, a key holding a NUL byte, too large or too deep
    a document), [None] for a document it takes. *)
Record World : Type := mkWorld {
  docs : list Document;
  next_oid : nat;
  outage : option string;
  clock : string;
  refused : Document -> option PyExc
}.

Definition set_docs (w : World) (l : list Document) : World :=
  mkWorld l (next_oid w) (outage w) (clock w) (refused w).

(** First document matching the filter, in natural order. *)
Definition first_match (q : Query) (l : list Document) : option Document :=
  head (filter (fun d => matches q d = true) l).

(** Document of greatest [version] in a list; the earliest one on a tie. *)
Fixpoint max_version (l : list Document) : option Document :=
  match l with
  | [] => None
  | d :: l' =>
      match max_version l' with
      | Some m => if version d <? version m then Some m else Some d
      | None => Some d
      end
  end.

(** [find_one(filter, sort=[("version", DESCENDING)])] *)
Definition latest_match (q : Query) (l : list Document) : option Document :=
  max_version (filter (fun d => matches q d = true) l).

(** The unique index on [(config_id, version)] declared by [_create_indexes]. *)
Definition key_taken (d : Document) (l : list Document) : bool :=
  existsb (fun d' => String.eqb (config_id d') (config_id d)
                     && (version d' =? version d)) l.

(** Sort orders used by the queries: [("version", DESCENDING)],
    [{"config_id": 1, "version": -1}] and [{"config_id": 1}]. Strings compare
    bytewise. *)
Definition version_desc (a b : Document) : Prop := version b <= version a.
Definition config_id_asc (a b : Document) : Prop :=
  String.le (config_id a) (config_id b).
Definition config_id_asc_version_desc (a b : Document) : Prop :=
  if decide (config_id a = config_id b) then version b <= version a
  else String.le (config_id a) (config_id b).

#[global] Instance version_desc_dec : RelDecision version_desc.
Proof. intros a b. unfold version_desc. apply _. Defined.
#[global] Instance config_id_asc_dec : RelDecision config_id_asc.
Proof. intros a b. unfold config_id_asc. apply _. Defined.
#[global] Instance config_id_asc_version_desc_dec :
  RelDecision config_id_asc_version_desc.
Proof. intros a b. unfold config_id_asc_version_desc. case_decide; apply _. Defined.

(** Text of the driver's duplicate-key error; the driver is not part of the
    repository and no caller depends on the wording. *)
Definition duplicate_key_text : string := "E11000 duplicate key error".

(** BSON holds integers of at most 8 bytes; for a larger one the driver's
    encoder raises OverflowError before anything is sent. The text is the
    driver's; no caller depends on the wording. *)
Definition int64 (z : Z) : bool := (- 2 ^ 63 <=? z) && (2 ^ 63 >? z).
Definition overflow_text : string :=
  "MongoDB can only handle up to 8-byte ints".
Definition nul_key_text : string :=
  "Key names must not contain the NULL byte".

(** What encoding a filter raises, if anything: the only integer in the
    filters of this class is the version. *)
Definition filter_refusal (q : Query) : option PyExc :=
  match q_version q with
  | Some v => if int64 v then None else Some (OverflowError overflow_text)
  | None => None
  end.

Fixpoint has_nul (s : string) : bool :=
  match s with
  | EmptyString => false
  | String a rest => Ascii.eqb a Ascii.zero || has_nul rest
  end.

(** What the encoder makes of a JSON value: the first integer beyond 8
    bytes or key with a NUL byte, in document order, raises. *)
Fixpoint bson_error (j : Json) : option PyExc :=
  match j with
  | JNum n => if int64 n then None else Some (OverflowError overflow_text)
  | JArr items =>
      foldr (fun item rest =>
               match bson_error item with Some e => Some e | None => rest end)
            None items
  | JObj members =>
      foldr (fun member rest =>
               if has_nul (fst member)
               then Some (InvalidDocument nul_key_text)
               else match bson_error (snd member) with
                    | Some e => Some e
                    | None => rest
                    end)
            None members
  | _ => None
  end.

(** What a driver refuses that checks integers and keys and knows no limit
    on size or depth: the driver of the sample worlds. *)
Definition bson_refusal (d : Document) : option PyExc :=
  bson_error (settings d).

(** ** Programs over the collection *)

(** The calls a method makes on its environment, indexed by what they
    return. [Aggregate] carries the denotation of its pipeline. *)
Inductive Cmd : Type -> Type :=
| FindOne (q : Query) : Cmd (option Document)
| FindOneLatest (q : Query) : Cmd (option Document)
| FindSorted (q : Query) : Cmd (list Document)
| InsertOne (d : Document) : Cmd ObjectId
| Aggregate (pipeline : list Document -> list Document) : Cmd (list Document)
| DeleteMany (q : Query) : Cmd nat
| Utcnow : Cmd string.

(** A method body: it has finished (returned or raised), or it makes a call
    and continues with the call's outcome. *)
Inductive Prog (A : Type) : Type :=
| Done (r : PyResult A)
| Call {X : Type} (c : Cmd X) (k : PyResult X -> Prog A).
Arguments Done {A} r.
Arguments Call {A X} c k.

Fixpoint prog_bind {A B} (f : A -> Prog B) (p : Prog A) : Prog B :=
  match p with
  | Done (Ret a) => f a
  | Done (Raise e) => Done (Raise e)
  | Call c k => Call c (fun r => prog_bind f (k r))
  end.

#[global] Instance prog_mret : MRet Prog := fun _ a => Done (Ret a).
#[global] Instance prog_mbind : MBind Prog := fun _ _ f p => prog_bind f p.

Definition raise {A} (e : PyExc) : Prog A := Done (Raise e).
Definition call {X} (c : Cmd X) : Prog X := Call c Done.

(** [try: body except Exception as e: handler e] *)
Fixpoint try_except {A} (body : Prog A) (handler : PyExc -> Prog A) : Prog A :=
  match body with
  | Done (Ret a) => Done (Ret a)
  | Done (Raise e) => handler e
  | Call c k => Call c (fun r => try_except (k r) handler)
  end.

(** *** What the server does with a call *)

Definition guarded {X} (w : World) (r : PyResult X * World) : PyResult X * World :=
  match outage w with
  | Some m => (Raise (ConnectionFailure m), w)
  | None => r
  end.

(** A call with a filter: the filter is encoded once a server is selected. *)
Definition sent {X} (q : Query) (w : World) (r : PyResult X * World)
  : PyResult X * World :=
  match filter_refusal q with
  | Some e => (Raise e, w)
  | None => r
  end.

(** [insert_one]: the document is encoded ([version] is its one integer
    outside [settings]), sent, and checked against the unique index. *)
Definition insert_one (d : Document) (w : World) : PyResult ObjectId * World :=
  if negb (int64 (version d)) then (Raise (OverflowError overflow_text), w)
  else
    match refused w d with
    | Some e => (Raise e, w)
    | None =>
        if key_taken d (docs w)
        then (Raise (DuplicateKeyError duplicate_key_text), w)
        else (Ret (next_oid w),
              mkWorld (docs w ++ [with_id d (next_oid w)]) (S (next_oid w))
                      (outage w) (clock w) (refused w))
    end.

Definition delete_many (q : Query) (w : World) : PyResult nat * World :=
  (Ret (length (filter (fun d => matches q d = true) (docs w))),
   set_docs w (filter (fun d => matches q d <> true) (docs w))).

Definition perform {X} (c : Cmd X) (w : World) : PyResult X * World :=
  match c in Cmd X return PyResult X * World with
  | FindOne q => guarded w (sent q w (Ret (first_match q (docs w)), w))
  | FindOneLatest q => guarded w (sent q w (Ret (latest_match q (docs w)), w))
  | FindSorted q =>
      guarded w
        (sent q w (Ret (merge_sort version_desc
                          (filter (fun d => matches q d = true) (docs w))), w))
  | InsertOne d => guarded w (insert_one d w)
  | Aggregate pipeline => guarded w (Ret (pipeline (docs w)), w)
  | DeleteMany q => guarded w (sent q w (delete_many q w))
  | Utcnow => (Ret (clock w), w)
  end.

(** A method run to completion with nothing else touching the collection. *)
Fixpoint run {A} (p : Prog A) (w : World) : PyResult A * World :=
  match p with
  | Done r => (r, w)
  | Call c k => let '(r, w') := perform c w in run (k r) w'
  end.

(** ** ConfigurationManager *)

Definition already_exists_text (cid : string) : string :=
  "Configuration with config_id '" +:+ cid +:+ "' already exists".

(** The loop over [required_fields]: the first missing key, in the order
    config_id, app_name, environment, settings, raises. *)
Definition require_fields (config_data : ConfigData)
  : Prog (string * string * string * Json) :=
  match cd_config_id config_data with
  | None => raise (ValueError "Missing required field: config_id")
  | Some cid =>
  match cd_app_name config_data with
  | None => raise (ValueError "Missing required field: app_name")
  | Some app =>
  match cd_environment config_data with
  | None => raise (ValueError "Missing required field: environment")
  | Some env =>
  match cd_settings config_data with
  | None => raise (ValueError "Missing required field: settings")
  | Some st => mret (cid, app, env, st)
  end end end end.

Definition create_config (config_data : ConfigData)
    (updated_by change_notes : option string) : Prog Document :=
  try_except
    ('(cid, app, env, st) ← require_fields config_data;
     existing_config ← call (FindOne (by_config_id cid));
     match existing_config with
     | Some _ => raise (ValueError (already_exists_text cid))
     | None =>
         current_time ← call Utcnow;
         let document :=
           mkDocument None cid 1 app env st current_time current_time
             updated_by
             (or_default change_notes "Initial configuration creation") in
         result ← call (InsertOne document);
         mret (with_id document result)
     end)
    (fun e =>
       match e with
       | DuplicateKeyError _ =>
           raise (ValueError
                    (already_exists_text (default "" (cd_config_id config_data))))
       | _ => raise (RuntimeError
                       ("Failed to create configuration: " +:+ exc_str e))
       end).

Definition get_latest_config (cid : string) : Prog (option Document) :=
  try_except
    (call (FindOneLatest (by_config_id cid)))
    (fun e => raise (RuntimeError
                       ("Failed to retrieve configuration: " +:+ exc_str e))).

Definition get_config (cid : string) : Prog (option Document) :=
  get_latest_config cid.

Definition update_config (cid : string) (new_settings : Json)
    (updated_by change_notes : option string) : Prog Document :=
  try_except
    (latest_config ← call (FindOneLatest (by_config_id cid));
     match latest_config with
     | None => raise (ValueError ("Configuration with config_id '" +:+ cid
                                    +:+ "' not found"))
     | Some latest_config =>
         let new_version := version latest_config + 1 in
         current_time ← call Utcnow;
         let new_document :=
           mkDocument None cid new_version (app_name latest_config)
             (environment latest_config) new_settings
             (created_at latest_config) current_time updated_by
             (or_default change_notes "Configuration updated") in
         result ← call (InsertOne new_document);
         mret (with_id new_document result)
     end)
    (fun e =>
       match e with
       | ValueError _ => raise e
       | _ => raise (RuntimeError
                       ("Failed to update configuration: " +:+ exc_str e))
       end).

Definition rollback_config (cid : string) (target_version : Z)
    (updated_by : option string) (change_notes : option string)
  : Prog Document :=
  try_except
    (target_config ← call (FindOne (by_config_id_version cid target_version));
     match target_config with
     | None => raise (ValueError ("Version " +:+ pretty target_version
                                    +:+ " not found for config_id '" +:+ cid
                                    +:+ "'"))
     | Some target_config =>
         latest_config ← get_latest_config cid;
         match latest_config with
         | None => raise (ValueError ("Configuration '" +:+ cid
                                        +:+ "' not found"))
         | Some latest_config =>
             let new_version := version latest_config + 1 in
             current_time ← call Utcnow;
             let new_document :=
               mkDocument None cid new_version (app_name target_config)
                 (environment target_config) (settings target_config)
                 (created_at target_config) current_time updated_by
                 (or_default change_notes
                    ("Rolled back to version " +:+ pretty target_version)) in
             result ← call (InsertOne new_document);
             mret (with_id new_document result)
         end
     end)
    (fun e =>
       match e with
       | ValueError _ => raise e
       | _ => raise (RuntimeError
                       ("Failed to rollback configuration: " +:+ exc_str e))
       end).

(** Any exception of the lookup is logged and turned into [None]. *)
Definition get_config_version (cid : string) (v : Z) : Prog (option Document) :=
  try_except
    (call (FindOne (by_config_id_version cid v)))
    (fun e => mret None).

Definition get_config_history (cid : string) : Prog (list Document) :=
  try_except
    (call (FindSorted (by_config_id cid)))
    (fun e => raise (RuntimeError
                       ("Failed to retrieve configuration history: "
                          +:+ exc_str e))).

(** *** The aggregation pipeline of [query_configs] *)

(** [{"$match": match_criteria}] *)
Definition match_stage (q : Query) (l : list Document) : list Document :=
  filter (fun d => matches q d = true) l.

(** [{"$sort": ...}] *)
Definition sort_stage (R : relation Document) `{!RelDecision R}
    (l : list Document) : list Document :=
  merge_sort R l.

(** [{"$group": {"_id": "$config_id", "latest_doc": {"$first": "$$ROOT"}}}]:
    one group per distinct [config_id], holding the first document of the
    input that carries it. Groups come out in order of first appearance; the
    server promises no order, and the pipeline sorts again afterwards. *)
Fixpoint group_stage (l : list Document) : list (string * Document) :=
  match l with
  | [] => []
  | d :: l' =>
      (config_id d, d)
        :: filter (fun g => fst g <> config_id d) (group_stage l')
  end.

(** [{"$replaceRoot": {"newRoot": "$latest_doc"}}] *)
Definition replace_root_stage (l : list (string * Document)) : list Document :=
  snd <$> l.

Definition query_configs (app : option string) (env : option string)
  : Prog (list Document) :=
  try_except
    (let match_criteria :=
       mkQuery None None
         (if truthy app then app else None)
         (if truthy env then env else None) in
     let pipeline (l : list Document) :=
       let l := if truthy app || truthy env
                then match_stage match_criteria l else l in
       let l := sort_stage config_id_asc_version_desc l in
       let g := group_stage l in
       let l := replace_root_stage g in
       sort_stage config_id_asc l in
     call (Aggregate pipeline))
    (fun e => raise (RuntimeError
                       ("Failed to query configurations: " +:+ exc_str e))).

Definition delete_config (cid : string) : Prog nat :=
  try_except
    (call (DeleteMany (by_config_id cid)))
    (fun e => raise (RuntimeError
                       ("Failed to delete configuration: " +:+ exc_str e))).

(** ** Histories of requests *)

(** The three writing methods, as requests a client can make. *)
Inductive WriteRequest : Type :=
| Create (config_data : ConfigData) (updated_by change_notes : option string)
| Update (cid : string) (new_settings : Json)
         (updated_by change_notes : option string)
| Rollback (cid : string) (target_version : Z)
           (updated_by change_notes : option string).

Definition write_prog (r : WriteRequest) : Prog Document :=
  match r with
  | Create cd u n => create_config cd u n
  | Update c s u n => update_config c s u n
  | Rollback c v u n => rollback_config c v u n
  end.

(** What happens to the world between and by requests: a write, a
    [delete_config], the clock moving on, the server becoming unreachable
    ([Some] text of the driver error) or reachable again. *)
Inductive Event : Type :=
| Write (r : WriteRequest)
| Delete (cid : string)
| Tick (now : string)
| Link (o : option string).

Definition is_delete (e : Event) : bool :=
  match e with Delete _ => true | _ => false end.

Definition exec (e : Event) (w : World) : World :=
  match e with
  | Write r => snd (run (write_prog r) w)
  | Delete c => snd (run (delete_config c) w)
  | Tick t => mkWorld (docs w) (next_oid w) (outage w) t (refused w)
  | Link o => mkWorld (docs w) (next_oid w) o (clock w) (refused w)
  end.

Definition exec_all (evs : list Event) (w : World) : World :=
  foldl (fun w e => exec e w) w evs.

(** Whether event [e], met in world [w], is a write that returns a document
    of configuration [cid]. *)
Definition wrote (cid : string) (e : Event) (w : World) : bool :=
  match e with
  | Write r =>
      match fst (run (write_prog r) w) with
      | Ret d => String.eqb (config_id d) cid
      | Raise _ => false
      end
  | _ => false
  end.

(** Number of successful writes to [cid] along a history started in [w]. *)
Fixpoint successful_writes (cid : string) (evs : list Event) (w : World) : nat :=
  match evs with
  | [] => 0
  | e :: evs' =>
      ((if wrote cid e w then 1 else 0)
       + successful_writes cid evs' (exec e w))%nat
  end.

Definition empty_world (oid : nat) (o : option string) (t : string)
    (refuses : Document -> option PyExc) : World :=
  mkWorld [] oid o t refuses.

(** Stored documents of one configuration, in insertion order. *)
Definition versions_of (cid : string) (l : list Document) : list Document :=
  filter (fun d => config_id d = cid) l.

(** *** Requests whose calls interleave *)

(** One call of a method, against the world as it is at that moment. *)
Definition step {A} (p : Prog A) (w : World) : Prog A * World :=
  match p with
  | Done r => (Done r, w)
  | Call c k => let '(r, w') := perform c w in (k r, w')
  end.

(** How a request ended, if it has. *)
Definition outcome {A} (p : Prog A) : option (PyResult A) :=
  match p with
  | Done r => Some r
  | Call _ _ => None
  end.

(** A pool of requests in flight; the schedule names, turn by turn, the
    request that makes its next call. *)
Fixpoint interleave {A} (schedule : list nat) (pool : list (Prog A)) (w : World)
  : list (Prog A) * World :=
  match schedule with
  | [] => (pool, w)
  | i :: schedule' =>
      match pool !! i with
      | Some p =>
          let '(p', w') := step p w in
          interleave schedule' (<[i := p']> pool) w'
      | None => interleave schedule' pool w
      end
  end.

(** ** The shape of a well-formed collection *)

(** The world after a successful insert of [d]. *)
Definition appended (w : World) (d : Document) : World :=
  mkWorld (docs w ++ [d]) (S (next_oid w)) (outage w) (clock w) (refused w).

(** The versions of every configuration, read in insertion order, count
    1, 2, 3, ... *)
Definition gapless (l : list Document) : Prop :=
  forall cid,
    version <$> versions_of cid l
    = seqZ 1 (Z.of_nat (length (versions_of cid l))).

(** Same application, environment and creation time. *)
Definition same_identity (d d' : Document) : Prop :=
  app_name d = app_name d' /\ environment d = environment d'
  /\ created_at d = created_at d'.

Definition identity_fixed (l : list Document) : Prop :=
  forall d d', d ∈ l -> d' ∈ l -> config_id d = config_id d' ->
    same_identity d d'.

(** [d] takes the next free version of its configuration in [l], and its
    identity fields from a version already there, if there is one. *)
Definition next_in_line (l : list Document) (d : Document) : Prop :=
  version d = Z.of_nat (length (versions_of (config_id d) l)) + 1
  /\ forall d', d' ∈ l -> config_id d' = config_id d -> same_identity d' d.

Ltac server_call Ho :=
  cbn; unfold guarded, sent, insert_one, delete_many; rewrite ?Ho; cbn.

(** [N] is the greatest version stored for [cid]. *)
Definition is_max_version (cid : string) (l : list Document) (N : Z) : Prop :=
  (exists d, d ∈ l /\ config_id d = cid /\ version d = N)
  /\ forall d, d ∈ l -> config_id d = cid -> version d <= N.

(** ** Requests in flight *)

Definition shape (l : list Document) : Prop := gapless l /\ identity_fixed l.

(** A request part-way through, having last looked at the collection when
    it held [seen]: whatever has been appended since, each call it still has
    to make keeps the collection's shape and only appends to it. *)
Fixpoint safe {A} (p : Prog A) (seen : list Document) : Prop :=
  match p with
  | Done _ => True
  | Call c k =>
      forall w, seen `prefix_of` docs w -> shape (docs w) ->
        docs w `prefix_of` docs (snd (perform c w))
        /\ shape (docs (snd (perform c w)))
        /\ safe (k (fst (perform c w))) (docs (snd (perform c w)))
  end.

(** ** A sample history *)

Definition cfg1_data : ConfigData :=
  mkConfigData (Some "cfg1") (Some "X") (Some "dev")
               (Some (JObj [("a", JNum 1)])).

Definition fresh : World :=
  empty_world 0 None "2024-05-01T10:00:00" bson_refusal.

(** create cfg1, later update it, later roll it back to version 1, then try
    to create it again. *)
Definition sample_history : list Event :=
  [ Write (Create cfg1_data (Some "ann") None);
    Tick "2024-05-01T11:00:00";
    Write (Update "cfg1" (JObj [("a", JNum 2)]) (Some "bob") None);
    Tick "2024-05-01T12:00:00";
    Write (Rollback "cfg1" 1 (Some "ann") None);
    Write (Create cfg1_data (Some "bob") None) ].

Definition cfg1_v1 : Document :=
  mkDocument (Some 0%nat) "cfg1" 1 "X" "dev" (JObj [("a", JNum 1)])
    "2024-05-01T10:00:00" "2024-05-01T10:00:00" (Some "ann")
    "Initial configuration creation".
Definition cfg1_v2 : Document :=
  mkDocument (Some 1%nat) "cfg1" 2 "X" "dev" (JObj [("a", JNum 2)])
    "2024-05-01T10:00:00" "2024-05-01T11:00:00" (Some "bob")
    "Configuration updated".
Definition cfg1_v3 : Document :=
  mkDocument (Some 2%nat) "cfg1" 3 "X" "dev" (JObj [("a", JNum 1)])
    "2024-05-01T10:00:00" "2024-05-01T12:00:00" (Some "ann")
    "Rolled back to version 1".

(** Version 1 of cfg1 when created without a user name. *)
Definition cfg1_v1' : Document :=
  mkDocument (Some 0%nat) "cfg1" 1 "X" "dev" (JObj [("a", JNum 1)])
    "2024-05-01T10:00:00" "2024-05-01T10:00:00" None
    "Initial configuration creation".

(** ** What [query_configs] is to return *)

(** The filter as the caller states it: each given value must be equalled. *)
Definition stated_filter (app env : option string) : Query :=
  mkQuery None None app env.

(** The filter [query_configs] puts in its [$match] stage: an argument that
    is [None] or the empty string constrains nothing. *)
Definition effective_filter (app env : option string) : Query :=
  mkQuery None None (if truthy app then app else None)
                    (if truthy env then env else None).

(** [d] is the first document of [l] with its [config_id]. *)
Definition first_of_its_config (l : list Document) (d : Document) : Prop :=
  exists l1 l2, l = l1 ++ d :: l2
                /\ forall x, x ∈ l1 -> config_id x <> config_id d.

(** [r] lists, by strictly ascending [config_id], exactly the documents of
    [l] that satisfy [q] and have the greatest version of their
    configuration; and every configuration with a document satisfying [q]
    is listed. *)
Definition latest_per_config (q : Query) (l r : list Document) : Prop :=
  StronglySorted (strict String.le) (config_id <$> r)
  /\ (forall d, d ∈ r <->
        d ∈ l /\ matches q d = true
        /\ forall x, x ∈ l -> config_id x = config_id d ->
                     version x <= version d)
  /\ (forall x, x ∈ l -> matches q x = true ->
                exists d, d ∈ r /\ config_id d = config_id x).

(** * webhooks.py *)

Record WebhookConfig : Type := mkWebhookConfig {
  url : string;
  events : list string;
  secret : option string;
  enabled : bool;
  timeout : Z;
  retry_attempts : Z;
  retry_delay : Z
}.

(** The dataclass defaults. *)
Definition webhook_config (u : string) : WebhookConfig :=
  mkWebhookConfig u ["config.created"; "config.updated"; "config.rolled_back"]
                  None true 10 3 1.

Record WebhookEvent : Type := mkWebhookEvent {
  event_type : string;
  event_id : string;
  timestamp : string;
  ev_config_id : string;
  ev_version : Z;
  ev_previous_version : option Z;
  ev_app_name : option string;
  ev_environment : option string;
  ev_updated_by : option string;
  ev_change_notes : option string;
  ev_settings : option Json
}.

(** What [requests.post] meets at the other end: an HTTP response, or an
    exception (connection refused, timeout, ...) carrying its text. *)
Inductive Reply : Type :=
| Response (status : Z) (text : string)
| NoResponse (error : string).

(** The network as a delivery sees it: [endpoint u k] is what the [k]-th
    request made so far gets when sent to [u]; [posted] counts the requests
    made; [slept] lists the waits between attempts, oldest first. *)
Record Net : Type := mkNet {
  endpoint : string -> nat -> Reply;
  posted : nat;
  slept : list Z
}.

Definition post (u : string) (net : Net) : Reply * Net :=
  (endpoint net u (posted net),
   mkNet (endpoint net) (S (posted net)) (slept net)).

Definition after_post (net : Net) : Net :=
  mkNet (endpoint net) (S (posted net)) (slept net).

Definition sleep (seconds : Z) (net : Net) : Net :=
  mkNet (endpoint net) (posted net) (slept net ++ [seconds]).

(** The dict returned by [dispatch_webhook]. *)
Record DispatchResult : Type := mkDispatchResult {
  status_code : option Z;
  response_text : string;
  success : bool
}.

(** The payload and its signature do not influence what the function
    returns; only the remote's reply does. *)
Definition dispatch_webhook (event : WebhookEvent)
    (webhook_config : WebhookConfig) (net : Net) : DispatchResult * Net :=
  let '(reply, net) := post (url webhook_config) net in
  match reply with
  | Response code text =>
      (mkDispatchResult (Some code) text ((200 <=? code) && (code <? 300)), net)
  | NoResponse e => (mkDispatchResult None e false, net)
  end.

(** *** tenacity *)

(** [stop_after_attempt(n)] *)
Definition stop_after_attempt (max_attempt_number attempt_number : Z) : bool :=
  max_attempt_number <=? attempt_number.

(** [wait_exponential(multiplier, min, max)], base 2: the wait after attempt
    number [a] is [multiplier * 2^(a-1)] clamped to [min..max]. *)
Definition wait_exponential (multiplier min max attempt_number : Z) : Z :=
  Z.max (Z.max 0 min) (Z.min (multiplier * 2 ^ (attempt_number - 1)) max).

(** [retry_if_exception_type((requests.ConnectionError, requests.Timeout,
    requests.HTTPError))]; the decorated function raises only the first. *)
Definition retry_if_exception_type (e : PyExc) : bool :=
  match e with
  | RequestsConnectionError _ => true
  | _ => false
  end.

(** The loop behind [@retry(stop=..., wait=..., retry=...)] (no [reraise]):
    call; on a return, return it; on an exception the [retry] predicate
    rejects, re-raise it; otherwise, if [stop] says so, raise RetryError,
    else sleep and call again. [fuel] bounds the number of calls. *)
Fixpoint retry_call {A} (fuel : nat) (attempt_number : Z)
    (stop : Z -> bool) (wait : Z -> Z) (retry : PyExc -> bool)
    (f : Net -> PyResult A * Net) (net : Net) : PyResult A * Net :=
  match fuel with
  | O => (Raise (RetryError "retry budget exhausted"), net)
  | S fuel' =>
      let '(r, net) := f net in
      match r with
      | Ret a => (Ret a, net)
      | Raise e =>
          if retry e then
            if stop attempt_number then (Raise (RetryError (exc_str e)), net)
            else retry_call fuel' (attempt_number + 1) stop wait retry f
                            (sleep (wait attempt_number) net)
          else (Raise e, net)
      end
  end.

(** The body of [dispatch_with_retry], one attempt. *)
Definition dispatch_with_retry_attempt (event : WebhookEvent)
    (webhook_config : WebhookConfig) (net : Net)
  : PyResult DispatchResult * Net :=
  let '(result, net) := dispatch_webhook event webhook_config net in
  if negb (success result)
     && match status_code result with
        | None => true
        | Some code => 500 <=? code
        end
  then (Raise (RequestsConnectionError
                 ("Webhook delivery failed: " +:+ response_text result)), net)
  else (Ret result, net).

(** [dispatch_with_retry] under its decorator
    [@retry(stop=stop_after_attempt(3),
            wait=wait_exponential(multiplier=1, min=1, max=60), ...)]. *)
Definition dispatch_with_retry (event : WebhookEvent)
    (webhook_config : WebhookConfig) (net : Net)
  : PyResult DispatchResult * Net :=
  retry_call 3 1 (stop_after_attempt 3) (wait_exponential 1 1 60)
             retry_if_exception_type
             (dispatch_with_retry_attempt event webhook_config) net.

(** *** WebhookManager *)

Record Counters : Type := mkCounters { successes : Z; failures : Z }.

Record WebhookManager : Type := mkWebhookManager {
  webhooks : list WebhookConfig;
  stats : gmap string Counters
}.

(** [stats.setdefault(u, {'success': 0, 'failure': 0})] *)
Definition setdefault (u : string) (m : gmap string Counters)
  : gmap string Counters :=
  match m !! u with
  | Some _ => m
  | None => <[u := mkCounters 0 0]> m
  end.

Definition count_success (c : Counters) : Counters :=
  mkCounters (successes c + 1) (failures c).
Definition count_failure (c : Counters) : Counters :=
  mkCounters (successes c) (failures c + 1).

(** The counters of a subscriber; one never delivered to has none yet. *)
Definition counters (m : WebhookManager) (u : string) : Counters :=
  default (mkCounters 0 0) (stats m !! u).

(** The task [_dispatch] that [dispatch_webhook_async] hands to its thread,
    run to its end. An exception escaping [dispatch_with_retry] ends the
    task before the counters are touched. *)
Definition _dispatch (event : WebhookEvent) (webhook_config : WebhookConfig)
    (webhook_manager : option WebhookManager) (net : Net)
  : PyResult unit * option WebhookManager * Net :=
  let '(r, net) := dispatch_with_retry event webhook_config net in
  match r with
  | Raise e => (Raise e, webhook_manager, net)
  | Ret result =>
      let webhook_manager :=
        match webhook_manager with
        | None => None
        | Some m =>
            let st := setdefault (url webhook_config) (stats m) in
            let st :=
              if success result
              then alter count_success (url webhook_config) st
              else alter count_failure (url webhook_config) st in
            Some (mkWebhookManager (webhooks m) st)
        end in
      (Ret tt, webhook_manager, net)
  end.

(** A failed attempt that is tried again: no response at all, or a 5xx. *)
Definition transient (r : Reply) : Prop :=
  match r with
  | NoResponse _ => True
  | Response code _ => 500 <= code
  end.

(** A 2xx response. *)
Definition accepted (r : Reply) : Prop :=
  match r with
  | NoResponse _ => False
  | Response code _ => 200 <= code < 300
  end.

(** A response that is neither 2xx nor 5xx-or-above, such as a 4xx. *)
Definition rejected (r : Reply) : Prop :=
  match r with
  | NoResponse _ => False
  | Response code _ => ~ (200 <= code < 300) /\ code < 500
  end.

(** *** Sample subscribers and remotes *)

Definition sample_event : WebhookEvent :=
  mkWebhookEvent "config.created" "evt-1" "2024-05-01T10:00:00Z" "cfg1" 1
                 None (Some "X") (Some "dev") (Some "ann")
                 (Some "Initial configuration creation")
                 (Some (JObj [("a", JNum 1)])).

Definition hook : WebhookConfig := webhook_config "https://hooks.example/a".

(** The same subscriber configured for five, and for one, attempt. *)
Definition hook5 : WebhookConfig :=
  mkWebhookConfig (url hook) (events hook) None true 10 5 1.
Definition hook1 : WebhookConfig :=
  mkWebhookConfig (url hook) (events hook) None true 10 1 1.

(** A remote that always answers 503; one that answers 500 twice and then
    200; one that answers 400. *)
Definition always_503 : Net :=
  mkNet (fun _ _ => Response 503 "unavailable") 0 [].
Definition twice_500_then_200 : Net :=
  mkNet (fun _ k => if (k <? 2)%nat then Response 500 "oops"
                    else Response 200 "ok") 0 [].
Definition always_400 : Net :=
  mkNet (fun _ _ => Response 400 "bad request") 0 [].

Definition manager0 : WebhookManager := mkWebhookManager [hook] ∅.

(** [WebhookManager.dispatch_event]: one task per enabled subscriber that
    listens for the event type, each handed the manager itself. The tasks
    are threads in the source; here each runs to its end where it is
    spawned. *)
Fixpoint dispatch_event_to (subscribers : list WebhookConfig)
    (event : WebhookEvent) (m : WebhookManager) (net : Net)
  : WebhookManager * Net :=
  match subscribers with
  | [] => (m, net)
  | webhook :: rest =>
      if enabled webhook && bool_decide (event_type event ∈ events webhook)
      then
        let '(_, m', net) := _dispatch event webhook (Some m) net in
        let m := default m m' in
        let m := mkWebhookManager (webhooks m)
                                  (setdefault (url webhook) (stats m)) in
        dispatch_event_to rest event m net
      else dispatch_event_to rest event m net
  end.

Definition dispatch_event (event : WebhookEvent) (m : WebhookManager)
    (net : Net) : WebhookManager * Net :=
  dispatch_event_to (webhooks m) event m net.

(** * database.py: metrics *)

(** A [$group] stage: one row per distinct key, in order of first
    appearance, holding the documents that carry the key. *)
Definition group_rows {K} `{EqDecision K} (key : Document -> K)
    (l : list Document) : list (K * list Document) :=
  (fun k => (k, filter (fun d => key d = k) l)) <$> remove_dups (key <$> l).

(** [{"$sum": 1}] and [{"$max": "$version"}] over the members of a group. *)
Definition sum_1 (members : list Document) : Z := Z.of_nat (length members).
Definition max_of_version (members : list Document) : Z :=
  from_option version 0 (max_version members).

(** The dict returned by [get_metrics_data]. *)
Record MetricsData : Type := mkMetricsData {
  configs_by_app_env : gmap string Z;
  versions_per_config : gmap string Z;
  latest_versions : gmap string Z
}.

(** [get_metrics_data]: two aggregations and the loops that turn their rows
    into dicts; any exception yields the three empty dicts. *)
Definition get_metrics_data (w : World) : MetricsData :=
  match outage w with
  | Some _ => mkMetricsData ∅ ∅ ∅
  | None =>
      let app_env_counts :=
        foldl (fun acc row =>
                 let '((app, env), members) := row in
                 if negb (String.eqb app "") && negb (String.eqb env "")
                 then <[app +:+ "|" +:+ env := sum_1 members]> acc
                 else acc)
              ∅
              (group_rows (fun d => (app_name d, environment d)) (docs w)) in
      let rows := group_rows config_id (docs w) in
      let versions_per_config :=
        foldl (fun acc row => <[fst row := sum_1 (snd row)]> acc) ∅ rows in
      let latest_versions :=
        foldl (fun acc row => <[fst row := max_of_version (snd row)]> acc)
              ∅ rows in
      mkMetricsData app_env_counts versions_per_config latest_versions
  end.


(** * webhooks.py: subscribers, events, signatures *)

(** Whether [dispatch_event] hands the event to this subscriber. *)
Definition listens (event : WebhookEvent) (webhook : WebhookConfig) : bool :=
  enabled webhook && bool_decide (event_type event ∈ events webhook).

Definition register_webhook (m : WebhookManager)
    (webhook_config : WebhookConfig) : WebhookManager :=
  mkWebhookManager (webhooks m ++ [webhook_config]) (stats m).

Definition unregister_webhook (m : WebhookManager) (u : string)
  : WebhookManager :=
  mkWebhookManager (filter (fun w => url w <> u) (webhooks m)) (stats m).

(** The events built by [trigger_webhook_on_create], [..._on_update] and
    [..._on_rollback]; [event_id] and [timestamp] stand for the fresh UUID
    and the formatted clock reading. The constant [metadata={}] is not
    carried. *)
Definition created_event (config : Document) (event_id timestamp : string)
  : WebhookEvent :=
  mkWebhookEvent "config.created" event_id timestamp
    (config_id config) (version config) None
    (Some (app_name config)) (Some (environment config))
    (updated_by config) (Some (change_notes config)) (Some (settings config)).

Definition updated_event (old_config new_config : Document)
    (event_id timestamp : string) : WebhookEvent :=
  mkWebhookEvent "config.updated" event_id timestamp
    (config_id new_config) (version new_config) (Some (version old_config))
    (Some (app_name new_config)) (Some (environment new_config))
    (updated_by new_config) (Some (change_notes new_config))
    (Some (settings new_config)).

Definition rolled_back_event (config : Document) (target_version : Z)
    (event_id timestamp : string) : WebhookEvent :=
  mkWebhookEvent "config.rolled_back" event_id timestamp
    (config_id config) (version config) (Some target_version)
    (Some (app_name config)) (Some (environment config))
    (updated_by config) (Some (change_notes config)) (Some (settings config)).

(** The tail shared by the three helpers: dispatch through the manager
    passed in; with none passed, the module's own globals hold no
    [webhook_manager], so nothing is sent. *)
Definition trigger (event : WebhookEvent)
    (webhook_manager_instance : option WebhookManager) (net : Net)
  : option WebhookManager * Net :=
  match webhook_manager_instance with
  | Some m => let '(m', net') := dispatch_event event m net in (Some m', net')
  | None => (None, net)
  end.

Definition trigger_webhook_on_create (config : Document)
    (webhook_manager_instance : option WebhookManager)
    (event_id timestamp : string) (net : Net) :=
  trigger (created_event config event_id timestamp)
          webhook_manager_instance net.

Definition trigger_webhook_on_update (old_config new_config : Document)
    (webhook_manager_instance : option WebhookManager)
    (event_id timestamp : string) (net : Net) :=
  trigger (updated_event old_config new_config event_id timestamp)
          webhook_manager_instance net.

Definition trigger_webhook_on_rollback (config : Document) (target_version : Z)
    (webhook_manager_instance : option WebhookManager)
    (event_id timestamp : string) (net : Net) :=
  trigger (rolled_back_event config target_version event_id timestamp)
          webhook_manager_instance net.

(** The three outcomes one attempt can have. *)
Inductive Verdict : Type := Accepted | Rejected | Transient.

Definition verdict (r : Reply) : Verdict :=
  match r with
  | NoResponse _ => Transient
  | Response code _ =>
      if (200 <=? code) && (code <? 300) then Accepted
      else if 500 <=? code then Transient else Rejected
  end.

(** Number of requests one delivery makes, read off the replies it would
    get: it stops at the first reply that is not transient, and after the
    third in any case. *)
Definition requests_made (net : Net) (u : string) : nat :=
  match verdict (endpoint net u (posted net)) with
  | Transient =>
      match verdict (endpoint net u (S (posted net))) with
      | Transient => 3
      | _ => 2
      end
  | _ => 1
  end.


(** *** Signatures *)

(** Lower-case hexadecimal rendering of a byte string, as [hexdigest]
    gives it. *)
Definition hex_digit (n : N) : Ascii.ascii :=
  Ascii.ascii_of_N (if (n <? 10)%N then 48 + n else 87 + n)%N.

Fixpoint hexdigest (digest : string) : string :=
  match digest with
  | EmptyString => EmptyString
  | String a rest =>
      String (hex_digit (Ascii.N_of_ascii a / 16))
        (String (hex_digit (Ascii.N_of_ascii a mod 16)) (hexdigest rest))
  end.

(** A [str] whose characters are all ASCII: no byte of its UTF-8 form is
    128 or above. *)
Fixpoint is_ascii (s : string) : bool :=
  match s with
  | EmptyString => true
  | String a rest => (Ascii.N_of_ascii a <? 128)%N && is_ascii rest
  end.

(** [hmac.compare_digest] on two [str]: a TypeError unless both are ASCII,
    otherwise whether they are equal. *)
Inductive CompareResult : Type :=
| Compared (equal : bool)
| CompareTypeError.

Definition compare_digest (a b : string) : CompareResult :=
  if is_ascii a && is_ascii b then Compared (String.eqb a b)
  else CompareTypeError.

Section Signature.
(** HMAC-SHA256 of a message under a key, as raw bytes: the standard
    library's [hmac.new(key, msg, hashlib.sha256).digest()]. *)
Variable hmac_sha256 : string -> string -> string.

Definition generate_signature (payload secret : string) : string :=
  "sha256=" +:+ hexdigest (hmac_sha256 secret payload).

Definition verify_signature (payload signature secret : string)
  : CompareResult :=
  let expected := generate_signature payload secret in
  compare_digest expected signature.
End Signature.


(** * database.py: UserManager *)

(** The [_id] of a user document as the caller sees it: the ObjectId the
    insert assigned, or its rendering [str(user["_id"])]. *)
Inductive IdValue : Type :=
| IdObject (oid : ObjectId)
| IdText (oid : ObjectId).

(** A document of the [users] collection. [password_hash] is [None] in a
    document read with the projection [{"password_hash": 0}] or returned as
    [safe_user]; [user_id] is absent until the insert. *)
Record User : Type := mkUser {
  user_id : option IdValue;
  username : string;
  password_hash : option string;
  role : string;
  api_key : string;
  user_created_at : string;
  user_updated_at : string;
  is_active : bool
}.

Definition without_hash (u : User) : User :=
  mkUser (user_id u) (username u) None (role u) (api_key u)
         (user_created_at u) (user_updated_at u) (is_active u).

(** [user["_id"] = str(user["_id"])] *)
Definition str_id (u : User) : User :=
  mkUser (match user_id u with
          | Some (IdObject oid) => Some (IdText oid)
          | other => other
          end)
         (username u) (password_hash u) (role u) (api_key u)
         (user_created_at u) (user_updated_at u) (is_active u).

(** The [users] collection in insertion order, with its unique indexes on
    [username] and on [api_key], and the state of the server. *)
Record UserStore : Type := mkUserStore {
  users : list User;
  next_user_id : nat;
  users_outage : option string
}.

Definition set_users (s : UserStore) (l : list User) : UserStore :=
  mkUserStore l (next_user_id s) (users_outage s).

Definition valid_roles : list string := ["viewer"; "editor"; "admin"].

(** First user satisfying a filter, in natural order. *)
Definition find_user (p : User -> bool) (l : list User) : option User :=
  head (filter (fun u => p u = true) l).

Definition has_username (name : string) (u : User) : bool :=
  String.eqb (username u) name.
Definition has_api_key (key : string) (u : User) : bool :=
  String.eqb (api_key u) key.

(** [update_one]: the first document satisfying the filter is replaced by
    its update; the others stay where they are. *)
Fixpoint update_first (p : User -> bool) (f : User -> User) (l : list User)
  : list User :=
  match l with
  | [] => []
  | u :: l' => if p u then f u :: l' else u :: update_first p f l'
  end.

(** [delete_one] *)
Fixpoint delete_first (p : User -> bool) (l : list User) : list User :=
  match l with
  | [] => []
  | u :: l' => if p u then l' else u :: delete_first p l'
  end.

(** [create_user]; [token] is what [secrets.token_urlsafe(32)] would return
    and [now] the clock reading. The [except] clause logs and re-raises. *)
Definition create_user (name hash user_role : string)
    (key : option string) (token now : string) (s : UserStore)
  : PyResult User * UserStore :=
  if negb (bool_decide (user_role ∈ valid_roles)) then
    (Raise (ValueError
              "Invalid role. Must be one of: ['viewer', 'editor', 'admin']"),
     s)
  else
    match users_outage s with
    | Some m => (Raise (ConnectionFailure m), s)
    | None =>
        match find_user (has_username name) (users s) with
        | Some _ =>
            (Raise (ValueError ("Username '" +:+ name +:+ "' already exists")),
             s)
        | None =>
            let key := default token key in
            let user_document :=
              mkUser None name (Some hash) user_role key now now true in
            if existsb (fun u => has_username name u || has_api_key key u)
                       (users s)
            then (Raise (DuplicateKeyError duplicate_key_text), s)
            else
              let stored :=
                mkUser (Some (IdObject (next_user_id s))) name (Some hash)
                       user_role key now now true in
              (Ret (without_hash stored),
               mkUserStore (users s ++ [stored]) (S (next_user_id s))
                           (users_outage s))
        end
    end.

(** Any exception of the lookup is logged and turned into [None]. *)
Definition get_user_by_username (name : string) (s : UserStore)
  : option User :=
  match users_outage s with
  | Some _ => None
  | None =>
      str_id
        <$> find_user (fun u => has_username name u && is_active u) (users s)
  end.

Definition get_user_by_api_key (key : string) (s : UserStore) : option User :=
  match users_outage s with
  | Some _ => None
  | None =>
      (fun u => str_id (without_hash u))
        <$> find_user (fun u => has_api_key key u && is_active u) (users s)
  end.

Definition set_password (hash now : string) (u : User) : User :=
  mkUser (user_id u) (username u) (Some hash) (role u) (api_key u)
         (user_created_at u) now (is_active u).

Definition set_api_key (key now : string) (u : User) : User :=
  mkUser (user_id u) (username u) (password_hash u) (role u) key
         (user_created_at u) now (is_active u).

Definition not_found_text (name : string) : string :=
  "User '" +:+ name +:+ "' not found".

(** [update_user_password]: [modified_count] is 1 only if the matched
    document actually changes. *)
Definition update_user_password (name new_hash now : string) (s : UserStore)
  : PyResult (option User) * UserStore :=
  match users_outage s with
  | Some m => (Raise (ConnectionFailure m), s)
  | None =>
      match find_user (has_username name) (users s) with
      | Some u =>
          if bool_decide (password_hash u = Some new_hash)
             && String.eqb (user_updated_at u) now
          then (Raise (ValueError (not_found_text name)), s)
          else
            let s' := set_users s (update_first (has_username name)
                                     (set_password new_hash now) (users s)) in
            (Ret (get_user_by_username name s'), s')
      | None => (Raise (ValueError (not_found_text name)), s)
      end
  end.

(** [regenerate_api_key]: the unique index on [api_key] refuses a key that
    another document holds. *)
Definition regenerate_api_key (name new_key now : string) (s : UserStore)
  : PyResult (option User) * UserStore :=
  match users_outage s with
  | Some m => (Raise (ConnectionFailure m), s)
  | None =>
      match find_user (has_username name) (users s) with
      | Some u =>
          if String.eqb (api_key u) new_key
             && String.eqb (user_updated_at u) now
          then (Raise (ValueError (not_found_text name)), s)
          else if negb (String.eqb (api_key u) new_key)
                  && existsb (has_api_key new_key) (users s)
          then (Raise (DuplicateKeyError duplicate_key_text), s)
          else
            let s' := set_users s (update_first (has_username name)
                                     (set_api_key new_key now) (users s)) in
            (Ret ((fun u => str_id (without_hash u))
                    <$> find_user (has_username name) (users s')),
             s')
      | None => (Raise (ValueError (not_found_text name)), s)
      end
  end.

Definition list_users (s : UserStore) : list User :=
  match users_outage s with
  | Some _ => []
  | None => (fun u => str_id (without_hash u)) <$> users s
  end.

Definition delete_user (name : string) (s : UserStore) : Z * UserStore :=
  match users_outage s with
  | Some _ => (0, s)
  | None =>
      match find_user (has_username name) (users s) with
      | Some _ => (1, set_users s (delete_first (has_username name) (users s)))
      | None => (0, s)
      end
  end.

Definition user_exists (s : UserStore) : bool :=
  match users_outage s with
  | Some _ => false
  | None => (0 <? length (users s))%nat
  end.

(** Requests on the user store, and the server going down or coming back. *)
Inductive UserRequest : Type :=
| CreateUser (name hash user_role : string) (key : option string)
             (token now : string)
| UpdatePassword (name new_hash now : string)
| RegenerateKey (name new_key now : string)
| DeleteUser (name : string)
| UsersLink (o : option string).

Definition exec_user (r : UserRequest) (s : UserStore) : UserStore :=
  match r with
  | CreateUser n h r k t now => snd (create_user n h r k t now s)
  | UpdatePassword n h now => snd (update_user_password n h now s)
  | RegenerateKey n k now => snd (regenerate_api_key n k now s)
  | DeleteUser n => snd (delete_user n s)
  | UsersLink o => mkUserStore (users s) (next_user_id s) o
  end.

Definition exec_users (rs : list UserRequest) (s : UserStore) : UserStore :=
  foldl (fun s r => exec_user r s) s rs.

Definition no_users (uid : nat) (o : option string) : UserStore :=
  mkUserStore [] uid o.

(** What the user store keeps: usernames and API keys are unique, every
    stored document is active. *)
Definition users_ok (l : list User) : Prop :=
  NoDup (username <$> l) /\ NoDup (api_key <$> l)
  /\ Forall (fun u => is_active u = true) l.

(** * auth.py: roles *)

(** [ROLE_LEVELS.get(role, 0)] *)
Definition get_role_level (r : string) : Z :=
  if String.eqb r "viewer" then 1
  else if String.eqb r "editor" then 2
  else if String.eqb r "admin" then 3
  else 0.

(** [has_permission]; [None] is a missing user. *)
Definition has_permission (user : option User) (required_role : string)
  : bool :=
  match user with
  | None => false
  | Some u => get_role_level required_role <=? get_role_level (role u)
  end.

(** A sample of users. *)
Definition sample_users : list UserRequest :=
  [ CreateUser "ann" "hash-a" "admin" (Some "key-a") "tok-1" "t1";
    CreateUser "bob" "hash-b" "viewer" None "tok-2" "t2";
    CreateUser "bob" "hash-c" "editor" None "tok-3" "t3";
    UpdatePassword "bob" "hash-d" "t4" ].


(** * Properties of the configuration store *)

(** ** How the queries read the collection *)

Lemma matches_by_config_id cid d :
  matches (by_config_id cid) d = true <-> config_id d = cid.
Proof.
  unfold matches, by_config_id; simpl.
  rewrite !andb_true_r, String.eqb_eq. split; congruence.
Qed.

Lemma matches_by_config_id_version cid v d :
  matches (by_config_id_version cid v) d = true
  <-> config_id d = cid /\ version d = v.
Proof.
  unfold matches, by_config_id_version; simpl.
  rewrite !andb_true_r, andb_true_iff, String.eqb_eq, Z.eqb_eq.
  split; intros [-> ->]; done.
Qed.

Lemma filter_by_config_id cid l :
  filter (fun d => matches (by_config_id cid) d = true) l = versions_of cid l.
Proof. apply list_filter_iff. intros d. apply matches_by_config_id. Qed.

Lemma key_taken_true d l :
  key_taken d l = true
  <-> exists d', d' ∈ l /\ config_id d' = config_id d /\ version d' = version d.
Proof.
  unfold key_taken. rewrite existsb_exists. split.
  - intros (d' & Hin & Heq). apply andb_true_iff in Heq as [H1 H2].
    apply String.eqb_eq in H1. apply Z.eqb_eq in H2.
    exists d'. by rewrite list_elem_of_In.
  - intros (d' & Hin & H1 & H2). exists d'. rewrite <- list_elem_of_In.
    split; [done|]. apply andb_true_iff.
    by rewrite String.eqb_eq, Z.eqb_eq.
Qed.

Lemma key_taken_false d l :
  key_taken d l = false
  <-> forall d', d' ∈ l -> config_id d' = config_id d -> version d' <> version d.
Proof.
  rewrite <- not_true_iff_false, key_taken_true. split.
  - intros Hn d' Hin H1 H2. apply Hn. eauto.
  - intros Hn (d' & Hin & H1 & H2). by eapply Hn.
Qed.

Lemma first_match_None q l :
  first_match q l = None <-> forall d, d ∈ l -> matches q d = false.
Proof.
  unfold first_match. rewrite head_None. split.
  - intros Hnil d Hin. apply not_true_iff_false. intros Hm.
    assert (d ∈ filter (fun d => matches q d = true) l) as Hd
      by (by apply list_elem_of_filter).
    rewrite Hnil in Hd. by apply not_elem_of_nil in Hd.
  - intros Hall. induction l as [|a l IH]; [done|].
    rewrite filter_cons_False.
    + apply IH. intros d Hin. apply Hall. by right.
    + rewrite (Hall a); [done|]. by left.
Qed.

Lemma first_match_Some q l d :
  first_match q l = Some d -> d ∈ l /\ matches q d = true.
Proof.
  unfold first_match. intros Hh. apply head_Some_elem_of in Hh.
  by apply list_elem_of_filter in Hh as [? ?].
Qed.

(** ** What one write does, run on its own *)

Lemma create_config_cases cd u n w :
  (exists e, run (create_config cd u n) w = (Raise e, w))
  \/ (exists cid app env st,
        cd = mkConfigData (Some cid) (Some app) (Some env) (Some st)
        /\ outage w = None
        /\ first_match (by_config_id cid) (docs w) = None
        /\ run (create_config cd u n) w =
           let d := mkDocument (Some (next_oid w)) cid 1 app env st
                      (clock w) (clock w) u
                      (or_default n "Initial configuration creation") in
           (Ret d, appended w d)).
Proof.
  destruct cd as [[cid|] [app|] [env|] [st|]];
    try (left; eexists; reflexivity).
  destruct (outage w) as [m|] eqn:Ho.
  { left. eexists. unfold create_config. server_call Ho. reflexivity. }
  destruct (first_match (by_config_id cid) (docs w)) as [d0|] eqn:Hf.
  { left. eexists. unfold create_config. server_call Ho. rewrite Hf.
    reflexivity. }
  destruct (refused w (mkDocument None cid 1 app env st (clock w) (clock w) u
                         (or_default n "Initial configuration creation")))
    as [e|] eqn:Hr.
  { left. destruct e; eexists; unfold create_config; server_call Ho;
      rewrite Hf; server_call Ho; rewrite Hr; reflexivity. }
  right. exists cid, app, env, st. repeat split; try done.
  unfold create_config. server_call Ho. rewrite Hf. server_call Ho.
  rewrite Hr.
  match goal with |- context [key_taken ?d ?l] =>
    assert (key_taken d l = false) as ->
  end; [|unfold appended; rewrite Ho; reflexivity].
  apply key_taken_false. cbn. intros d' Hin Hc _.
  rewrite first_match_None in Hf. specialize (Hf d' Hin).
  apply not_true_iff_false in Hf. apply Hf. by apply matches_by_config_id.
Qed.

Lemma max_version_None l : max_version l = None <-> l = [].
Proof.
  destruct l as [|d l]; [done|]. simpl.
  destruct (max_version l); [case_match|]; done.
Qed.

Lemma max_version_Some l m :
  max_version l = Some m ->
  m ∈ l /\ forall d, d ∈ l -> version d <= version m.
Proof.
  revert m. induction l as [|a l IH]; intros m; [done|]. simpl.
  destruct (max_version l) as [m'|] eqn:Hm.
  - destruct (IH m' eq_refl) as [Hin Hmax].
    destruct (Z.ltb_spec (version a) (version m')); intros [= <-].
    + split; [by right|]. intros d [->|Hd]%elem_of_cons; [lia|auto].
    + split; [by left|]. intros d [->|Hd]%elem_of_cons; [lia|].
      specialize (Hmax d Hd). lia.
  - intros [= <-]. apply max_version_None in Hm as ->.
    split; [by left|]. intros d [->|Hd]%elem_of_cons; [lia|].
    by apply not_elem_of_nil in Hd.
Qed.

Lemma latest_match_by_config_id cid l :
  latest_match (by_config_id cid) l = max_version (versions_of cid l).
Proof. unfold latest_match. by rewrite filter_by_config_id. Qed.

Lemma latest_match_Some cid l m :
  latest_match (by_config_id cid) l = Some m ->
  m ∈ l /\ config_id m = cid
  /\ forall d, d ∈ l -> config_id d = cid -> version d <= version m.
Proof.
  rewrite latest_match_by_config_id. intros [Hin Hmax]%max_version_Some.
  apply list_elem_of_filter in Hin as [Hc Hin]. repeat split; [done..|].
  intros d Hd Hcd. apply Hmax. by apply list_elem_of_filter.
Qed.

Lemma latest_match_None cid l :
  latest_match (by_config_id cid) l = None <-> versions_of cid l = [].
Proof. rewrite latest_match_by_config_id. apply max_version_None. Qed.

(** The slot above the latest version is always free. *)
Lemma next_version_free cid l m d :
  latest_match (by_config_id cid) l = Some m ->
  config_id d = cid -> version d = version m + 1 ->
  key_taken d l = false.
Proof.
  intros (_ & _ & Hmax)%latest_match_Some Hc Hv.
  apply key_taken_false. intros d' Hin Hc' Hv'.
  specialize (Hmax d' Hin). rewrite Hc', Hc in Hmax.
  specialize (Hmax eq_refl). lia.
Qed.

Lemma update_config_cases cid st u n w :
  (exists e, run (update_config cid st u n) w = (Raise e, w))
  \/ (exists latest,
        outage w = None
        /\ latest_match (by_config_id cid) (docs w) = Some latest
        /\ run (update_config cid st u n) w =
           let d := mkDocument (Some (next_oid w)) cid (version latest + 1)
                      (app_name latest) (environment latest) st
                      (created_at latest) (clock w) u
                      (or_default n "Configuration updated") in
           (Ret d, appended w d)).
Proof.
  destruct (outage w) as [m|] eqn:Ho.
  { left. eexists. unfold update_config. server_call Ho. reflexivity. }
  destruct (latest_match (by_config_id cid) (docs w)) as [latest|] eqn:Hl.
  2:{ left. eexists. unfold update_config. server_call Ho. rewrite Hl.
      reflexivity. }
  destruct (int64 (version latest + 1)) eqn:Hv.
  2:{ left. eexists. unfold update_config. server_call Ho. rewrite Hl.
      server_call Ho. rewrite Hv. reflexivity. }
  destruct (refused w (mkDocument None cid (version latest + 1)
                         (app_name latest) (environment latest) st
                         (created_at latest) (clock w) u
                         (or_default n "Configuration updated")))
    as [e|] eqn:Hr.
  { left. destruct e; eexists; unfold update_config; server_call Ho;
      rewrite Hl; server_call Ho; rewrite Hv, Hr; reflexivity. }
  right. exists latest. repeat split; try done.
  unfold update_config. server_call Ho. rewrite Hl. server_call Ho.
  rewrite Hv, Hr. cbn.
  match goal with |- context [key_taken ?d ?l] =>
    assert (key_taken d l = false) as ->
  end; [|unfold appended; rewrite Ho; reflexivity].
  by eapply next_version_free.
Qed.

Lemma rollback_config_cases cid k u n w :
  (exists e, run (rollback_config cid k u n) w = (Raise e, w))
  \/ (exists target latest,
        outage w = None
        /\ first_match (by_config_id_version cid k) (docs w) = Some target
        /\ latest_match (by_config_id cid) (docs w) = Some latest
        /\ run (rollback_config cid k u n) w =
           let d := mkDocument (Some (next_oid w)) cid (version latest + 1)
                      (app_name target) (environment target)
                      (settings target) (created_at target) (clock w) u
                      (or_default n
                         ("Rolled back to version " +:+ pretty k)) in
           (Ret d, appended w d)).
Proof.
  destruct (outage w) as [m|] eqn:Ho.
  { left. eexists. unfold rollback_config. server_call Ho. reflexivity. }
  destruct (int64 k) eqn:Hk.
  2:{ left. eexists. unfold rollback_config. server_call Ho.
      unfold filter_refusal; cbn. rewrite Hk. reflexivity. }
  destruct (first_match (by_config_id_version cid k) (docs w))
    as [target|] eqn:Ht.
  2:{ left. eexists. unfold rollback_config. server_call Ho.
      unfold filter_refusal; cbn. rewrite Hk, Ht. reflexivity. }
  destruct (latest_match (by_config_id cid) (docs w)) as [latest|] eqn:Hl.
  2:{ left. eexists. unfold rollback_config. server_call Ho.
      unfold filter_refusal; cbn. rewrite Hk, Ht.
      server_call Ho. rewrite Hl. reflexivity. }
  destruct (int64 (version latest + 1)) eqn:Hv.
  2:{ left. eexists. unfold rollback_config. server_call Ho.
      unfold filter_refusal; cbn. rewrite Hk, Ht.
      server_call Ho. rewrite Hl. server_call Ho. rewrite Hv. reflexivity. }
  destruct (refused w (mkDocument None cid (version latest + 1)
                         (app_name target) (environment target)
                         (settings target) (created_at target) (clock w) u
                         (or_default n
                            ("Rolled back to version " +:+ pretty k))))
    as [e|] eqn:Hr.
  { left. destruct e; eexists; unfold rollback_config; server_call Ho;
      unfold filter_refusal; cbn; rewrite Hk, Ht; server_call Ho;
      rewrite Hl; server_call Ho; rewrite Hv, Hr; reflexivity. }
  right. exists target, latest. repeat split; try done.
  unfold rollback_config. server_call Ho.
  unfold filter_refusal; cbn. rewrite Hk, Ht. server_call Ho.
  rewrite Hl. server_call Ho. rewrite Hv, Hr. cbn.
  match goal with |- context [key_taken ?d ?l] =>
    assert (key_taken d l = false) as ->
  end; [|unfold appended; rewrite Ho; reflexivity].
  by eapply next_version_free.
Qed.

(** ** Gapless versions and fixed identity are kept by every write *)

Lemma versions_of_app cid l1 l2 :
  versions_of cid (l1 ++ l2) = versions_of cid l1 ++ versions_of cid l2.
Proof. apply filter_app. Qed.

Lemma same_identity_refl d : same_identity d d.
Proof. by repeat split. Qed.

Lemma same_identity_sym d d' : same_identity d d' -> same_identity d' d.
Proof. intros (?&?&?). by repeat split. Qed.

Lemma same_identity_trans d1 d2 d3 :
  same_identity d1 d2 -> same_identity d2 d3 -> same_identity d1 d3.
Proof. intros (?&?&?) (?&?&?). repeat split; congruence. Qed.

Lemma gapless_nil : gapless [].
Proof. intros cid. reflexivity. Qed.

Lemma identity_fixed_nil : identity_fixed [].
Proof. intros d d' Hd. by apply not_elem_of_nil in Hd. Qed.

Lemma gapless_snoc l d :
  gapless l ->
  version d = Z.of_nat (length (versions_of (config_id d) l)) + 1 ->
  gapless (l ++ [d]).
Proof.
  intros Hg Hv cid. rewrite versions_of_app. unfold versions_of at 2 4.
  rewrite filter_singleton by exact [].
  case_decide as Hc; [|rewrite !app_nil_r; apply Hg].
  subst cid. rewrite fmap_app, length_app, Hg. cbn [fmap list_fmap length].
  rewrite Nat.add_1_r, seqZ_S. f_equal. rewrite Hv. f_equal. lia.
Qed.

Lemma identity_fixed_snoc l d :
  identity_fixed l ->
  (forall d', d' ∈ l -> config_id d' = config_id d -> same_identity d' d) ->
  identity_fixed (l ++ [d]).
Proof.
  intros Hi Hd a b Ha Hb Hc.
  apply elem_of_app in Ha as [Ha|Ha%list_elem_of_singleton];
    apply elem_of_app in Hb as [Hb|Hb%list_elem_of_singleton]; subst.
  - by apply Hi.
  - by apply Hd.
  - apply same_identity_sym. by apply Hd.
  - apply same_identity_refl.
Qed.

(** In a gapless collection the latest version is the number of versions. *)
Lemma gapless_latest l cid m :
  gapless l -> latest_match (by_config_id cid) l = Some m ->
  version m = Z.of_nat (length (versions_of cid l)).
Proof.
  intros Hg Hl. specialize (Hg cid).
  rewrite latest_match_by_config_id in Hl.
  apply max_version_Some in Hl as [Hin Hmax].
  set (vs := versions_of cid l) in *.
  assert (version m ∈ version <$> vs) as Hm by (by apply list_elem_of_fmap_2).
  rewrite Hg in Hm. apply elem_of_seqZ in Hm.
  destruct (decide (version m = Z.of_nat (length vs))) as [|Hne]; [done|].
  assert (Z.of_nat (length vs) ∈ version <$> vs) as Htop.
  { rewrite Hg. apply elem_of_seqZ. lia. }
  apply list_elem_of_fmap in Htop as (d & Hv & Hd).
  specialize (Hmax d Hd). lia.
Qed.

Lemma first_match_by_config_id_None cid l :
  first_match (by_config_id cid) l = None <-> versions_of cid l = [].
Proof.
  unfold first_match. by rewrite filter_by_config_id, head_None.
Qed.

(** A write either raises and leaves the world as it was, or appends one
    document that is next in line. *)
Lemma write_cases r w :
  gapless (docs w) -> identity_fixed (docs w) ->
  (exists e, run (write_prog r) w = (Raise e, w))
  \/ (exists d, run (write_prog r) w = (Ret d, appended w d)
               /\ next_in_line (docs w) d).
Proof.
  intros Hg Hi. destruct r as [cd u n|cid st u n|cid k u n]; simpl.
  - destruct (create_config_cases cd u n w)
      as [?|(cid & app & env & st & -> & Ho & Hf & Hrun)]; [by left|].
    right. eexists. split; [exact Hrun|].
    apply first_match_by_config_id_None in Hf.
    split; cbn; [by rewrite Hf|].
    intros d' Hin Hc.
    assert (d' ∈ versions_of cid (docs w)) as Hd
      by (by apply list_elem_of_filter).
    rewrite Hf in Hd. by apply not_elem_of_nil in Hd.
  - destruct (update_config_cases cid st u n w)
      as [?|(latest & Ho & Hl & Hrun)]; [by left|].
    right. eexists. split; [exact Hrun|].
    split; cbn; [by rewrite (gapless_latest _ _ _ Hg Hl)|].
    apply latest_match_Some in Hl as (Hin & Hc & _).
    intros d' Hin' Hc'. apply (Hi d' latest); congruence.
  - destruct (rollback_config_cases cid k u n w)
      as [?|(target & latest & Ho & Ht & Hl & Hrun)]; [by left|].
    right. eexists. split; [exact Hrun|].
    split; cbn; [by rewrite (gapless_latest _ _ _ Hg Hl)|].
    apply first_match_Some in Ht as [Hin Hm].
    apply matches_by_config_id_version in Hm as [Hc _].
    intros d' Hin' Hc'. apply (Hi d' target); congruence.
Qed.

Lemma versions_of_delete cid cid' l :
  versions_of cid'
    (filter (fun d => matches (by_config_id cid) d <> true) l)
  = if decide (cid' = cid) then [] else versions_of cid' l.
Proof.
  unfold versions_of. induction l as [|a l IH]; [by case_decide|].
  destruct (decide (config_id a = cid)) as [Ha|Ha].
  - rewrite (filter_cons_False (fun d => matches _ d <> true)).
    2:{ intros Hn. apply Hn. by apply matches_by_config_id. }
    rewrite IH. case_decide; [done|].
    rewrite (filter_cons_False (fun d => config_id d = cid')); congruence.
  - rewrite (filter_cons_True (fun d => matches _ d <> true)).
    2:{ intros Hn. apply Ha. by apply matches_by_config_id. }
    destruct (decide (config_id a = cid')) as [Ha'|Ha'].
    + rewrite !(filter_cons_True (fun d => config_id d = cid')) by done.
      rewrite IH. case_decide; congruence.
    + rewrite !(filter_cons_False (fun d => config_id d = cid')) by done.
      apply IH.
Qed.

Lemma delete_config_docs cid w :
  docs (snd (run (delete_config cid) w)) = docs w
  \/ docs (snd (run (delete_config cid) w))
     = filter (fun d => matches (by_config_id cid) d <> true) (docs w).
Proof.
  destruct (outage w) as [m|] eqn:Ho; unfold delete_config;
    server_call Ho; auto.
Qed.

Lemma exec_keeps_shape e w :
  gapless (docs w) -> identity_fixed (docs w) ->
  gapless (docs (exec e w)) /\ identity_fixed (docs (exec e w)).
Proof.
  intros Hg Hi. destruct e as [r|cid|t|o]; cbn [exec]; [| |done..].
  - destruct (write_cases r w Hg Hi) as [[e ->]|(d & -> & Hv & Hid)];
      [done|]. simpl. split.
    + by apply gapless_snoc.
    + by apply identity_fixed_snoc.
  - destruct (delete_config_docs cid w) as [->| ->]; [done|]. split.
    + intros cid'. rewrite versions_of_delete. case_decide; [done|apply Hg].
    + intros a b [_ Ha]%list_elem_of_filter [_ Hb]%list_elem_of_filter.
      by apply Hi.
Qed.

Lemma exec_all_keeps_shape evs w :
  gapless (docs w) -> identity_fixed (docs w) ->
  gapless (docs (exec_all evs w)) /\ identity_fixed (docs (exec_all evs w)).
Proof.
  revert w. induction evs as [|e evs IH]; intros w Hg Hi; [done|].
  simpl. destruct (exec_keeps_shape e w Hg Hi). by apply IH.
Qed.

Lemma latest_is_max cid l m :
  latest_match (by_config_id cid) l = Some m ->
  is_max_version cid l (version m).
Proof.
  intros (Hin & Hc & Hmax)%latest_match_Some. split; [|done].
  by exists m.
Qed.

Lemma create_config_returns cd u n w d w' :
  run (create_config cd u n) w = (Ret d, w') ->
  version d = 1 /\ docs w' = docs w ++ [d].
Proof.
  destruct (create_config_cases cd u n w)
    as [[e ->]|(cid & app & env & st & _ & _ & _ & ->)]; [done|].
  by intros [= <- <-].
Qed.

Lemma update_config_returns cid st u n w d w' :
  run (update_config cid st u n) w = (Ret d, w') ->
  exists N, is_max_version cid (docs w) N /\ version d = N + 1
            /\ config_id d = cid /\ docs w' = docs w ++ [d].
Proof.
  destruct (update_config_cases cid st u n w)
    as [[e ->]|(latest & _ & Hl & ->)]; [done|].
  intros [= <- <-]. exists (version latest).
  split; [by apply latest_is_max|done].
Qed.

Lemma exec_no_delete_count cid e w :
  is_delete e = false -> gapless (docs w) -> identity_fixed (docs w) ->
  length (versions_of cid (docs (exec e w)))
  = (length (versions_of cid (docs w)) + (if wrote cid e w then 1 else 0))%nat.
Proof.
  intros Hnd Hg Hi. destruct e as [r|c|t|o]; [|done|simpl; lia..].
  cbn [exec wrote].
  destruct (write_cases r w Hg Hi) as [[e ->]|(d & -> & _)]; simpl; [lia|].
  rewrite versions_of_app, length_app. f_equal.
  unfold versions_of. rewrite filter_singleton by exact [].
  destruct (String.eqb_spec (config_id d) cid); case_decide; done.
Qed.

Lemma history_count cid evs w :
  Forall (fun e => is_delete e = false) evs ->
  gapless (docs w) -> identity_fixed (docs w) ->
  length (versions_of cid (docs (exec_all evs w)))
  = (length (versions_of cid (docs w)) + successful_writes cid evs w)%nat.
Proof.
  intros Hnd. revert w. induction Hnd as [|e evs He Hevs IH]; intros w Hg Hi.
  { simpl. lia. }
  simpl. destruct (exec_keeps_shape e w Hg Hi) as [Hg' Hi'].
  rewrite IH by done. rewrite (exec_no_delete_count cid e w) by done. lia.
Qed.

(** C1. Started on an empty collection, after any history of create, update
    and rollback requests (the clock and the server's availability changing
    at will in between), the versions stored for a configuration, read in
    insertion order, are exactly 1, 2, ..., N, where N is the number of
    writes to it that succeeded. A successful create writes version 1; a
    successful update writes the greatest stored version plus one. *)
Theorem versions_are_one_to_N evs oid o t drv cid :
  Forall (fun e => is_delete e = false) evs ->
  let w0 := empty_world oid o t drv in
  version <$> versions_of cid (docs (exec_all evs w0))
  = seqZ 1 (Z.of_nat (successful_writes cid evs w0))
  /\ (forall w cd u n d w',
        run (create_config cd u n) w = (Ret d, w') ->
        version d = 1 /\ docs w' = docs w ++ [d])
  /\ (forall w c st u n d w',
        run (update_config c st u n) w = (Ret d, w') ->
        exists N, is_max_version c (docs w) N /\ version d = N + 1
                  /\ config_id d = c /\ docs w' = docs w ++ [d]).
Proof.
  intros Hnd w0. split; [|split].
  - destruct (exec_all_keeps_shape evs w0 gapless_nil identity_fixed_nil)
      as [Hg _].
    rewrite Hg. f_equal. f_equal.
    by rewrite (history_count cid evs w0 Hnd gapless_nil identity_fixed_nil).
  - intros. by eapply create_config_returns.
  - intros. by eapply update_config_returns.
Qed.

(** ** One document per (config_id, version) *)

Lemma versions_in_range l d :
  gapless l -> d ∈ l ->
  1 <= version d <= Z.of_nat (length (versions_of (config_id d) l)).
Proof.
  intros Hg Hd. specialize (Hg (config_id d)).
  assert (version d ∈ version <$> versions_of (config_id d) l) as Hv.
  { apply list_elem_of_fmap_2. by apply list_elem_of_filter. }
  rewrite Hg in Hv. apply elem_of_seqZ in Hv. lia.
Qed.


Lemma gapless_unique_key l d d' :
  gapless l -> d ∈ l -> d' ∈ l ->
  config_id d = config_id d' -> version d = version d' -> d = d'.
Proof.
  intros Hg Hd Hd' Hc Hv. specialize (Hg (config_id d)).
  assert (d ∈ versions_of (config_id d) l) as Hin
    by (by apply list_elem_of_filter).
  assert (d' ∈ versions_of (config_id d) l) as Hin'
    by (by apply list_elem_of_filter).
  apply list_elem_of_lookup in Hin as [i Hi].
  apply list_elem_of_lookup in Hin' as [j Hj].
  assert (NoDup (version <$> versions_of (config_id d) l)) as Hnd
    by (rewrite Hg; apply NoDup_seqZ).
  assert (i = j) as ->.
  { eapply NoDup_lookup; [exact Hnd| |].
    - by rewrite list_lookup_fmap, Hi.
    - by rewrite list_lookup_fmap, Hj, Hv. }
  congruence.
Qed.

Lemma first_match_stored l cid k target :
  gapless l -> target ∈ l -> config_id target = cid -> version target = k ->
  first_match (by_config_id_version cid k) l = Some target.
Proof.
  intros Hg Hin Hc Hv.
  destruct (first_match (by_config_id_version cid k) l) as [t|] eqn:Hf.
  - apply first_match_Some in Hf as [Ht Hm].
    apply matches_by_config_id_version in Hm as [Hc' Hv'].
    f_equal. apply (gapless_unique_key l); congruence.
  - rewrite first_match_None in Hf. specialize (Hf target Hin).
    apply not_true_iff_false in Hf. destruct Hf.
    by apply matches_by_config_id_version.
Qed.

Lemma is_max_version_unique cid l N N' :
  is_max_version cid l N -> is_max_version cid l N' -> N = N'.
Proof.
  intros [(d & Hd & Hc & Hv) Hmax] [(d' & Hd' & Hc' & Hv') Hmax'].
  specialize (Hmax d' Hd' Hc'). specialize (Hmax' d Hd Hc). lia.
Qed.

(** ** Rollback *)

Lemma int64_spec z : int64 z = true <-> - 2 ^ 63 <= z < 2 ^ 63.
Proof.
  unfold int64. change (2 ^ 63) with 9223372036854775808.
  rewrite andb_true_iff, Z.leb_le, Z.gtb_ltb, Z.ltb_lt. lia.
Qed.

(** C2. In any collection the store can hold, with the server reachable: if
    version [k] of [cid] is stored and the greatest stored version is [N],
    and the driver takes the new document (its version [N+1] fits 8 bytes
    and its content is not refused), [rollback_config cid k] appends and
    returns a document of version [N+1] that carries version [k]'s settings,
    the current clock reading as [updated_at], and, when the caller gives no
    notes, the note "Rolled back to version k"; if [k] fits 8 bytes and
    version [k] is not stored it raises ValueError and the world is as
    before. *)
Theorem rollback_config_spec evs oid o t drv cid k u n :
  let w := exec_all evs (empty_world oid o t drv) in
  outage w = None ->
  (forall target N,
      target ∈ docs w -> config_id target = cid -> version target = k ->
      is_max_version cid (docs w) N ->
      N + 1 < 2 ^ 63 ->
      refused w (mkDocument None cid (N + 1) (app_name target)
                   (environment target) (settings target)
                   (created_at target) (clock w) u
                   (or_default n ("Rolled back to version " +:+ pretty k)))
      = None ->
      exists d,
        run (rollback_config cid k u n) w = (Ret d, appended w d)
        /\ config_id d = cid /\ version d = N + 1
        /\ settings d = settings target
        /\ updated_at d = clock w
        /\ (n = None ->
            change_notes d = "Rolled back to version " +:+ pretty k))
  /\ (- 2 ^ 63 <= k < 2 ^ 63 ->
      (forall d, d ∈ docs w -> config_id d = cid -> version d <> k) ->
      run (rollback_config cid k u n) w
      = (Raise (ValueError ("Version " +:+ pretty k
                              +:+ " not found for config_id '" +:+ cid
                              +:+ "'")), w)).
Proof.
  intros w Ho.
  destruct (exec_all_keeps_shape evs (empty_world oid o t drv)
              gapless_nil identity_fixed_nil) as [Hg _].
  fold w in Hg. split.
  - intros target N Hin Hc Hv HN Htop Hr.
    pose proof (first_match_stored _ _ _ _ Hg Hin Hc Hv) as Hf.
    destruct (latest_match (by_config_id cid) (docs w)) as [m|] eqn:Hl.
    2:{ apply latest_match_None in Hl.
        assert (target ∈ versions_of cid (docs w)) as Hx
          by (by apply list_elem_of_filter).
        rewrite Hl in Hx. by apply not_elem_of_nil in Hx. }
    assert (N = version m) as ->
      by apply (is_max_version_unique _ _ _ _ HN (latest_is_max _ _ _ Hl)).
    assert (int64 k = true) as Hk.
    { apply int64_spec. pose proof (versions_in_range _ _ Hg Hin) as Hrange.
      rewrite Hc, Hv, <- (gapless_latest _ _ _ Hg Hl) in Hrange.
      change (2 ^ 63) with 9223372036854775808 in *. lia. }
    assert (int64 (version m + 1) = true) as Hv'.
    { apply int64_spec. destruct HN as [(x & Hx & Hcx & Hvx) _].
      pose proof (versions_in_range _ _ Hg Hx) as Hrange.
      change (2 ^ 63) with 9223372036854775808 in *. lia. }
    eexists. split.
    + unfold rollback_config. server_call Ho.
      unfold filter_refusal; cbn. rewrite Hk, Hf. server_call Ho.
      rewrite Hl. server_call Ho. rewrite Hv', Hr. cbn.
      match goal with |- context [key_taken ?d ?l] =>
        assert (key_taken d l = false) as ->
      end; [by eapply next_version_free|].
      unfold appended. rewrite Ho. reflexivity.
    + cbn. repeat split; try done. by intros ->.
  - intros Hk%int64_spec Hnone. unfold rollback_config. server_call Ho.
    unfold filter_refusal; cbn. rewrite Hk.
    assert (first_match (by_config_id_version cid k) (docs w) = None) as ->.
    { apply first_match_None. intros d Hd. apply not_true_iff_false.
      intros [Hc Hv]%matches_by_config_id_version. by eapply Hnone. }
    reflexivity.
Qed.

(** ** Identity fields *)

Lemma update_config_copies cid st u n w d w' :
  run (update_config cid st u n) w = (Ret d, w') ->
  exists latest,
    latest_match (by_config_id cid) (docs w) = Some latest
    /\ same_identity d latest.
Proof.
  destruct (update_config_cases cid st u n w)
    as [[e ->]|(latest & _ & Hl & ->)]; [done|].
  intros [= <- <-]. exists latest. split; [done|]. by repeat split.
Qed.

Lemma rollback_config_copies cid k u n w d w' :
  run (rollback_config cid k u n) w = (Ret d, w') ->
  exists target,
    first_match (by_config_id_version cid k) (docs w) = Some target
    /\ same_identity d target.
Proof.
  destruct (rollback_config_cases cid k u n w)
    as [[e ->]|(target & latest & _ & Ht & _ & ->)]; [done|].
  intros [= <- <-]. exists target. split; [done|]. by repeat split.
Qed.

(** Version 1 of a stored configuration is stored. *)
Lemma version_one_stored l d :
  gapless l -> d ∈ l ->
  exists v1, v1 ∈ l /\ config_id v1 = config_id d /\ version v1 = 1.
Proof.
  intros Hg Hd. pose proof (versions_in_range l d Hg Hd) as Hr.
  assert (1 ∈ version <$> versions_of (config_id d) l) as H1.
  { rewrite (Hg (config_id d)). apply elem_of_seqZ. lia. }
  apply list_elem_of_fmap in H1 as (v1 & Hv & Hin).
  apply list_elem_of_filter in Hin as [Hc Hin]. by exists v1.
Qed.

(** C4. After any history of requests started on an empty collection, any
    two stored versions of one configuration agree on [app_name],
    [environment] and [created_at]; version 1 is among them, so each version
    carries version 1's values. A successful update copies the three fields
    from the latest version it read, a successful rollback from the target
    version. *)
Theorem identity_fields_fixed evs oid o t drv d d' :
  let w := exec_all evs (empty_world oid o t drv) in
  d ∈ docs w -> d' ∈ docs w -> config_id d = config_id d' ->
  (app_name d = app_name d' /\ environment d = environment d'
   /\ created_at d = created_at d')
  /\ (exists v1, v1 ∈ docs w /\ config_id v1 = config_id d
                 /\ version v1 = 1 /\ same_identity d v1)
  /\ (forall w cid st u n x w',
        run (update_config cid st u n) w = (Ret x, w') ->
        exists latest,
          latest_match (by_config_id cid) (docs w) = Some latest
          /\ same_identity x latest)
  /\ (forall w cid k u n x w',
        run (rollback_config cid k u n) w = (Ret x, w') ->
        exists target,
          first_match (by_config_id_version cid k) (docs w) = Some target
          /\ same_identity x target).
Proof.
  intros w Hd Hd' Hc.
  destruct (exec_all_keeps_shape evs (empty_world oid o t drv)
              gapless_nil identity_fixed_nil) as [Hg Hi].
  split; [by apply Hi|]. split; [|split; intros].
  - destruct (version_one_stored _ _ Hg Hd) as (v1 & Hin & Hc1 & Hv1).
    exists v1. repeat split; try done; by apply Hi.
  - by eapply update_config_copies.
  - by eapply rollback_config_copies.
Qed.

(** ** Stored documents never change *)

Lemma write_appends r w :
  docs (snd (run (write_prog r) w)) = docs w
  \/ exists d, fst (run (write_prog r) w) = Ret d
               /\ docs (snd (run (write_prog r) w)) = docs w ++ [d].
Proof.
  destruct r as [cd u n|cid st u n|cid k u n]; cbn [write_prog].
  - destruct (create_config_cases cd u n w)
      as [[e ->]|(cid & app & env & st & _ & _ & _ & ->)]; [by left|].
    right. by eexists.
  - destruct (update_config_cases cid st u n w)
      as [[e ->]|(latest & _ & _ & ->)]; [by left|].
    right. by eexists.
  - destruct (rollback_config_cases cid k u n w)
      as [[e ->]|(target & latest & _ & _ & _ & ->)]; [by left|].
    right. by eexists.
Qed.

Lemma exec_no_delete_prefix e w :
  is_delete e = false -> docs w `prefix_of` docs (exec e w).
Proof.
  intros He. destruct e as [r|c|t|o]; [|done|done..].
  cbn [exec]. destruct (write_appends r w) as [->|(d & _ & ->)]; [done|].
  by apply prefix_app_r.
Qed.

Lemma exec_all_no_delete_prefix evs w :
  Forall (fun e => is_delete e = false) evs ->
  docs w `prefix_of` docs (exec_all evs w).
Proof.
  intros Hnd. revert w. induction Hnd as [|e evs He _ IH]; intros w; [done|].
  simpl. etrans; [by apply exec_no_delete_prefix|apply IH].
Qed.

Lemma first_match_prefix q l l' d :
  l `prefix_of` l' -> first_match q l = Some d -> first_match q l' = Some d.
Proof.
  intros [tail ->] Hf. unfold first_match in *. rewrite filter_app.
  apply head_Some in Hf as [rest ->]. done.
Qed.

Lemma get_config_version_Some cid v w d :
  fst (run (get_config_version cid v) w) = Ret (Some d) ->
  first_match (by_config_id_version cid v) (docs w) = Some d.
Proof.
  unfold get_config_version. destruct (outage w) as [m|] eqn:Ho;
    server_call Ho; [congruence|].
  unfold filter_refusal; cbn. destruct (int64 v); cbn; congruence.
Qed.

(** C6. A create, update or rollback leaves every stored document in place
    and as it was: the collection afterwards is the collection before, with
    at most the one new document appended. Hence two fetches of the same
    (config_id, version) that both return a document, with any history
    free of [delete_config] in between, return the same document: same
    settings, created_at, app_name and environment. *)
Theorem stored_versions_immutable evs w cid v d d' :
  Forall (fun e => is_delete e = false) evs ->
  fst (run (get_config_version cid v) w) = Ret (Some d) ->
  fst (run (get_config_version cid v) (exec_all evs w)) = Ret (Some d') ->
  (settings d' = settings d /\ created_at d' = created_at d
   /\ app_name d' = app_name d /\ environment d' = environment d)
  /\ forall r w0,
       docs (snd (run (write_prog r) w0)) = docs w0
       \/ exists new, docs (snd (run (write_prog r) w0)) = docs w0 ++ [new].
Proof.
  intros Hnd H1 H2. split.
  - apply get_config_version_Some in H1, H2.
    apply (first_match_prefix _ _ (docs (exec_all evs w))) in H1;
      [|by apply exec_all_no_delete_prefix].
    rewrite H1 in H2. by injection H2 as ->.
  - intros r w0. destruct (write_appends r w0) as [?|(new & _ & ?)];
      [by left|right; by exists new].
Qed.

(** ** The sample history, step by step *)

Example sample_history_docs :
  docs (exec_all sample_history fresh) = [cfg1_v1; cfg1_v2; cfg1_v3].
Proof. vm_compute. reflexivity. Qed.

Example sample_history_listing :
  fst (run (get_config_history "cfg1") (exec_all sample_history fresh))
  = Ret [cfg1_v3; cfg1_v2; cfg1_v1].
Proof. vm_compute. reflexivity. Qed.

Example sample_history_latest :
  fst (run (get_latest_config "cfg1") (exec_all sample_history fresh))
  = Ret (Some cfg1_v3).
Proof. vm_compute. reflexivity. Qed.

Lemma no_delete_in_sample :
  Forall (fun e => is_delete e = false) sample_history.
Proof. repeat constructor. Qed.

Lemma versions_are_one_to_N_witness :
  Forall (fun e => is_delete e = false) sample_history
  /\ version <$> versions_of "cfg1" (docs (exec_all sample_history fresh))
     = seqZ 1 (Z.of_nat (successful_writes "cfg1" sample_history fresh)).
Proof.
  split; [repeat constructor|].
  apply (versions_are_one_to_N sample_history 0%nat None
           "2024-05-01T10:00:00" bson_refusal "cfg1").
  repeat constructor.
Defined.

Lemma rollback_config_spec_witness :
  exists d,
    run (rollback_config "cfg1" 2 (Some "eve") None)
        (exec_all sample_history fresh)
    = (Ret d, appended (exec_all sample_history fresh) d)
    /\ config_id d = "cfg1" /\ version d = 3 + 1
    /\ settings d = settings cfg1_v2
    /\ updated_at d = clock (exec_all sample_history fresh)
    /\ (@None string = None ->
        change_notes d = "Rolled back to version " +:+ pretty 2).
Proof.
  refine (proj1 (rollback_config_spec sample_history 0%nat None
                   "2024-05-01T10:00:00" bson_refusal "cfg1" 2 (Some "eve")
                   None _)
            cfg1_v2 3 _ _ _ _ _ _).
  - reflexivity.
  - vm_compute. apply list_elem_of_In. simpl. tauto.
  - reflexivity.
  - reflexivity.
  - split.
    + exists cfg1_v3. split; [|done]. vm_compute. apply list_elem_of_In.
      simpl. tauto.
    + intros d Hd _. vm_compute in Hd. apply list_elem_of_In in Hd.
      simpl in Hd. destruct Hd as [<-|[<-|[<-|[]]]]; simpl; lia.
  - reflexivity.
  - reflexivity.
Defined.

(** C2 as stated fails beyond 8 bytes. Asked to roll cfg1 back to version
    2^63, which is not stored, [rollback_config] raises not the not-found
    ValueError but the RuntimeError wrapper of the driver's OverflowError.
    And where the greatest stored version is 2^63 - 1, rolling back to it
    raises the same instead of storing version 2^63. Neither writes
    anything. *)
Lemma rollback_beyond_8_bytes_counterexample :
  ((forall d, d ∈ docs (exec_all sample_history fresh) ->
              config_id d = "cfg1" -> version d <> 2 ^ 63)
   /\ run (rollback_config "cfg1" (2 ^ 63) None None)
          (exec_all sample_history fresh)
      = (Raise (RuntimeError
                  ("Failed to rollback configuration: " +:+ overflow_text)),
         exec_all sample_history fresh))
  /\ (let top :=
        mkDocument (Some 0%nat) "cfg1" (2 ^ 63 - 1) "X" "dev" JNull
          "2024-05-01T10:00:00" "2024-05-01T10:00:00" None "imported" in
      let w := mkWorld [top] 1 None "2024-05-01T11:00:00" bson_refusal in
      is_max_version "cfg1" (docs w) (2 ^ 63 - 1)
      /\ run (rollback_config "cfg1" (2 ^ 63 - 1) None None) w
         = (Raise (RuntimeError
                     ("Failed to rollback configuration: " +:+ overflow_text)),
            w)).
Proof.
  split; [split|split].
  - intros d Hd _. vm_compute in Hd. apply list_elem_of_In in Hd.
    simpl in Hd. destruct Hd as [<-|[<-|[<-|[]]]]; vm_compute; discriminate.
  - vm_compute. reflexivity.
  - split.
    + eexists. split; [by left|done].
    + intros d ->%list_elem_of_singleton _. simpl. lia.
  - vm_compute. reflexivity.
Qed.

Lemma identity_fields_fixed_witness :
  app_name cfg1_v3 = app_name cfg1_v1
  /\ environment cfg1_v3 = environment cfg1_v1
  /\ created_at cfg1_v3 = created_at cfg1_v1.
Proof.
  refine (proj1 (identity_fields_fixed sample_history 0%nat None
                   "2024-05-01T10:00:00" bson_refusal cfg1_v3 cfg1_v1 _ _ _)).
  - vm_compute. apply list_elem_of_In. simpl. tauto.
  - vm_compute. apply list_elem_of_In. simpl. tauto.
  - reflexivity.
Defined.

Lemma stored_versions_immutable_witness :
  settings cfg1_v1 = settings cfg1_v1
  /\ created_at cfg1_v1 = created_at cfg1_v1
  /\ app_name cfg1_v1 = app_name cfg1_v1
  /\ environment cfg1_v1 = environment cfg1_v1.
Proof.
  refine (proj1 (stored_versions_immutable (drop 1 sample_history)
                   (exec_all (take 1 sample_history) fresh)
                   "cfg1" 1 cfg1_v1 cfg1_v1 _ _ _)).
  - repeat constructor.
  - reflexivity.
  - reflexivity.
Defined.

(** ** Creating a configuration twice *)

(** The pre-check of [create_config] raises ValueError inside the [try];
    the method has no [except ValueError: raise] clause, so the final
    [except Exception] wraps it. *)
Lemma create_config_existing cd cid u n w d0 :
  cd_config_id cd = Some cid -> is_Some (cd_app_name cd) ->
  is_Some (cd_environment cd) -> is_Some (cd_settings cd) ->
  outage w = None ->
  first_match (by_config_id cid) (docs w) = Some d0 ->
  run (create_config cd u n) w
  = (Raise (RuntimeError ("Failed to create configuration: "
                            +:+ already_exists_text cid)), w).
Proof.
  destruct cd as [c a e s]; simpl. intros -> [? ->] [? ->] [? ->] Ho Hf.
  unfold create_config. server_call Ho. by rewrite Hf.
Qed.

(** The second of two creates in a row finds the first one's document. *)
Lemma create_config_twice cd u n u' n' w d w' :
  run (create_config cd u n) w = (Ret d, w') ->
  run (create_config cd u' n') w'
  = (Raise (RuntimeError ("Failed to create configuration: "
                            +:+ already_exists_text (config_id d))), w').
Proof.
  destruct (create_config_cases cd u n w)
    as [[e ->]|(cid & app & env & st & -> & Ho & Hf & ->)]; [done|].
  intros [= <- <-]. cbn [config_id].
  apply first_match_by_config_id_None in Hf.
  eapply create_config_existing; try done.
  unfold first_match. rewrite filter_by_config_id. cbn [appended docs].
  rewrite versions_of_app, Hf. unfold versions_of.
  rewrite filter_singleton by exact []. by rewrite decide_True.
Qed.

(** C3, on the sample data: the first create succeeds; the second, which
    meets the first one's document in its pre-check, inserts nothing, but
    what it raises is the RuntimeError wrapper of the generic handler, not
    the ValueError the docstring promises. *)
Theorem duplicate_create_raises_runtime_error :
  let w1 := snd (run (create_config cfg1_data None None) fresh) in
  fst (run (create_config cfg1_data None None) fresh) = Ret cfg1_v1'
  /\ run (create_config cfg1_data None None) w1
     = (Raise (RuntimeError
                 "Failed to create configuration: Configuration with config_id 'cfg1' already exists"),
        w1).
Proof. vm_compute. done. Qed.

(** Settings holding an integer beyond 8 bytes: the driver's OverflowError
    reaches the caller as the RuntimeError wrapper, and nothing is stored. *)
Example settings_beyond_8_bytes :
  run (create_config
         (mkConfigData (Some "cfg2") (Some "X") (Some "dev")
                       (Some (JObj [("limit", JNum (2 ^ 63))]))) None None)
      fresh
  = (Raise (RuntimeError
              ("Failed to create configuration: " +:+ overflow_text)),
     fresh).
Proof. vm_compute. reflexivity. Qed.

(** When the two creates race (both pre-checks pass before either insert),
    the loser's insert violates the unique index and that path does raise
    ValueError. *)
Example racing_creates :
  interleave [0; 1; 0; 0; 1; 1]%nat
    [create_config cfg1_data None None; create_config cfg1_data None None]
    fresh
  = ([Done (Ret cfg1_v1');
      Done (Raise (ValueError
                     "Configuration with config_id 'cfg1' already exists"))],
     mkWorld [cfg1_v1'] 1 None "2024-05-01T10:00:00" bson_refusal).
Proof. vm_compute. reflexivity. Qed.

(** ** Fetching one version while the server is unreachable *)

Lemma get_config_version_outage cid v w m :
  outage w = Some m -> run (get_config_version cid v) w = (Ret None, w).
Proof. intros Ho. unfold get_config_version. by server_call Ho. Qed.

Lemma get_config_version_missing cid v w :
  outage w = None ->
  (forall d, d ∈ docs w -> config_id d = cid -> version d <> v) ->
  run (get_config_version cid v) w = (Ret None, w).
Proof.
  intros Ho Hnone. unfold get_config_version. server_call Ho.
  unfold filter_refusal; cbn. destruct (int64 v); cbn; [|done].
  assert (first_match (by_config_id_version cid v) (docs w) = None) as ->;
    [|done].
  apply first_match_None. intros d Hd. apply not_true_iff_false.
  intros [Hc Hv]%matches_by_config_id_version. by eapply Hnone.
Qed.

Lemma get_latest_config_outage cid w m :
  outage w = Some m ->
  run (get_latest_config cid) w
  = (Raise (RuntimeError ("Failed to retrieve configuration: " +:+ m)), w).
Proof. intros Ho. unfold get_latest_config. by server_call Ho. Qed.

(** C9, on the sample data: with version 1 of cfg1 stored but the server
    unreachable, [get_config_version] returns [None], exactly what it
    returns for a version that is not stored; [get_latest_config] in the
    same world raises. *)
Theorem get_config_version_hides_outage :
  let w1 := exec_all sample_history fresh in
  let down := exec (Link (Some "server selection timed out")) w1 in
  fst (run (get_config_version "cfg1" 1) w1) = Ret (Some cfg1_v1)
  /\ fst (run (get_config_version "cfg1" 1) down) = Ret None
  /\ fst (run (get_config_version "cfg1" 9) w1) = Ret None
  /\ fst (run (get_latest_config "cfg1") down)
     = Raise (RuntimeError
                "Failed to retrieve configuration: server selection timed out").
Proof. vm_compute. done. Qed.

(** ** The aggregation pipeline *)

#[global] Instance config_id_asc_total : Total config_id_asc.
Proof. intros a b. unfold config_id_asc. apply (total String.le). Qed.

#[global] Instance config_id_asc_trans : Transitive config_id_asc.
Proof. intros a b c. unfold config_id_asc. apply transitivity. Qed.

#[global] Instance config_id_asc_version_desc_total :
  Total config_id_asc_version_desc.
Proof.
  intros a b. unfold config_id_asc_version_desc.
  destruct (decide (config_id a = config_id b)) as [Hab|Hab].
  - rewrite decide_True by done. lia.
  - rewrite (decide_False (P := config_id b = config_id a)) by done.
    apply (total String.le).
Qed.

#[global] Instance config_id_asc_version_desc_trans :
  Transitive config_id_asc_version_desc.
Proof.
  intros a b c. unfold config_id_asc_version_desc.
  destruct (decide (config_id a = config_id b)) as [Hab|Hab],
           (decide (config_id b = config_id c)) as [Hbc|Hbc].
  - rewrite decide_True by congruence. lia.
  - rewrite decide_False by congruence. by rewrite Hab.
  - rewrite decide_False by congruence. by rewrite <- Hbc.
  - intros H1 H2. case_decide as Hac.
    + exfalso. apply Hab. rewrite <- Hac in H2.
      by apply (anti_symm String.le).
    + by etrans.
Qed.

Lemma group_stage_fst l c d : (c, d) ∈ group_stage l -> c = config_id d.
Proof.
  induction l as [|a l IH]; simpl; [by intros ?%not_elem_of_nil|].
  intros [[= -> ->]|[_ Hin]%list_elem_of_filter]%elem_of_cons; auto.
Qed.

Lemma group_stage_NoDup l : NoDup (fst <$> group_stage l).
Proof.
  induction l as [|a l IH]; simpl; [constructor|].
  constructor.
  - intros ((c & d) & Hc & [Hne _]%list_elem_of_filter)%list_elem_of_fmap.
    simpl in *. congruence.
  - eapply sublist_NoDup; [exact IH|].
    apply fmap_sublist, sublist_filter.
Qed.

Lemma group_stage_first l d :
  (config_id d, d) ∈ group_stage l <-> first_of_its_config l d.
Proof.
  induction l as [|a l IH]; simpl.
  { split; [by intros ?%not_elem_of_nil|].
    intros (l1 & l2 & Heq & _). by destruct l1. }
  rewrite elem_of_cons, list_elem_of_filter, IH. simpl. split.
  - intros [[= _ ->]|[Hne (l1 & l2 & -> & Hl1)]].
    + exists [], l. split; [done|]. by intros x ?%not_elem_of_nil.
    + exists (a :: l1), l2. split; [done|].
      intros x [->|Hx]%elem_of_cons; [congruence|auto].
  - intros (l1 & l2 & Heq & Hl1). destruct l1 as [|b l1]; simplify_eq/=.
    + by left.
    + right. split.
      * intros Hd. apply (Hl1 b); [by left|done].
      * exists l1, l2. split; [done|]. intros x Hx. apply Hl1. by right.
Qed.

Lemma elem_of_grouped l d :
  d ∈ replace_root_stage (group_stage l) <-> first_of_its_config l d.
Proof.
  unfold replace_root_stage. rewrite <- group_stage_first. split.
  - intros ((c & d') & -> & Hin)%list_elem_of_fmap. simpl.
    by rewrite <- (group_stage_fst _ _ _ Hin).
  - intros Hin. apply list_elem_of_fmap. by exists (config_id d, d).
Qed.

Lemma first_of_its_config_elem l d : first_of_its_config l d -> d ∈ l.
Proof. intros (l1 & l2 & -> & _). apply elem_of_app. right. by left. Qed.

(** Every configuration present has a first document. *)
Lemma first_of_its_config_exists l d :
  d ∈ l -> exists d0, first_of_its_config l d0 /\ config_id d0 = config_id d.
Proof.
  induction l as [|a l IH]; [by intros ?%not_elem_of_nil|].
  destruct (decide (config_id a = config_id d)) as [Ha|Ha].
  { intros _. exists a. split; [|done]. exists [], l.
    split; [done|]. by intros x ?%not_elem_of_nil. }
  intros [->|Hin]%elem_of_cons; [done|].
  destruct (IH Hin) as (d0 & (l1 & l2 & -> & Hl1) & Hc).
  exists d0. split; [|done]. exists (a :: l1), l2. split; [done|].
  intros x [->|Hx]%elem_of_cons; [congruence|auto].
Qed.

(** In a list sorted by config_id, then by version descending, the first
    document of a configuration has its greatest version. *)
Lemma first_of_sorted_is_latest l d x :
  StronglySorted config_id_asc_version_desc l ->
  first_of_its_config l d -> x ∈ l -> config_id x = config_id d ->
  version x <= version d.
Proof.
  intros Hs (l1 & l2 & -> & Hl1) Hx Hc.
  apply elem_of_app in Hx as [Hx|Hx]; [by destruct (Hl1 x Hx)|].
  apply elem_of_cons in Hx as [->|Hx]; [lia|].
  apply StronglySorted_app_1_r in Hs.
  apply StronglySorted_inv in Hs as [_ Hall].
  rewrite Forall_forall in Hall. specialize (Hall x Hx).
  unfold config_id_asc_version_desc in Hall.
  by rewrite decide_True in Hall.
Qed.

Lemma matches_same_identity q a b :
  q_config_id q = None -> q_version q = None -> same_identity a b ->
  matches q a = matches q b.
Proof.
  intros Hc Hv (Happ & Henv & _). unfold matches.
  by rewrite Hc, Hv, Happ, Henv.
Qed.

Lemma strictly_ascending (l : list Document) :
  StronglySorted config_id_asc l -> NoDup (config_id <$> l) ->
  StronglySorted (strict String.le) (config_id <$> l).
Proof.
  induction 1 as [|a l Hs IH Hall]; csimpl; intros Hnd; [constructor|].
  apply NoDup_cons in Hnd as [Hnotin Hnd]. constructor; [by apply IH|].
  rewrite Forall_fmap. rewrite Forall_forall in Hall |- *.
  intros x Hx. specialize (Hall x Hx). unfold config_id_asc in Hall.
  simpl. split; [done|]. intros Hback. apply Hnotin.
  assert (config_id a = config_id x) as -> by (by apply (anti_symm String.le)).
  by apply list_elem_of_fmap_2.
Qed.

Lemma grouped_config_ids l :
  config_id <$> replace_root_stage (group_stage l) = fst <$> group_stage l.
Proof.
  unfold replace_root_stage. rewrite <- list_fmap_compose.
  apply Forall_fmap_ext, Forall_forall. intros [c d] Hin. simpl.
  symmetry. by eapply group_stage_fst.
Qed.

(** The pipeline, on a collection of the shape the store keeps. *)
Lemma pipeline_latest_per_config q l :
  gapless l -> identity_fixed l ->
  q_config_id q = None -> q_version q = None ->
  latest_per_config q l
    (sort_stage config_id_asc
       (replace_root_stage
          (group_stage
             (sort_stage config_id_asc_version_desc (match_stage q l))))).
Proof.
  intros Hg Hi Hqc Hqv. unfold sort_stage.
  set (l1 := match_stage q l).
  set (l2 := merge_sort config_id_asc_version_desc l1).
  set (l3 := replace_root_stage (group_stage l2)).
  assert (forall d, d ∈ l1 <-> matches q d = true /\ d ∈ l) as Hl1
    by (intros d; unfold l1, match_stage;
        apply (list_elem_of_filter (fun d => matches q d = true))).
  assert (forall d, d ∈ l2 <-> d ∈ l1) as Hl2
    by (intros d; unfold l2; by rewrite merge_sort_Permutation).
  assert (StronglySorted config_id_asc_version_desc l2) as Hs2
    by (apply StronglySorted_merge_sort; apply _).
  assert (forall d, d ∈ merge_sort config_id_asc l3
                    <-> first_of_its_config l2 d) as Hr.
  { intros d. rewrite merge_sort_Permutation. apply elem_of_grouped. }
  split; [|split].
  - apply strictly_ascending; [apply StronglySorted_merge_sort; apply _|].
    rewrite merge_sort_Permutation. unfold l3.
    rewrite grouped_config_ids. apply group_stage_NoDup.
  - intros d. rewrite Hr. split.
    + intros Hfirst.
      pose proof (first_of_its_config_elem _ _ Hfirst) as Hd2.
      apply Hl2, Hl1 in Hd2 as [Hm Hd]. repeat split; [done..|].
      intros x Hx Hc. apply (first_of_sorted_is_latest l2); [done..| |done].
      apply Hl2, Hl1. split; [|done].
      rewrite (matches_same_identity q x d); [done..|]. by apply Hi.
    + intros (Hd & Hm & Hmax).
      assert (d ∈ l2) as Hd2 by (apply Hl2, Hl1; done).
      destruct (first_of_its_config_exists _ _ Hd2) as (d0 & Hfirst & Hc).
      pose proof (first_of_its_config_elem _ _ Hfirst) as Hd0.
      apply Hl2, Hl1 in Hd0 as [_ Hd0].
      assert (d0 = d) as <-; [|done].
      apply (gapless_unique_key l); [done..|].
      apply Z.le_antisymm; [by apply Hmax|].
      by apply (first_of_sorted_is_latest l2).
  - intros x Hx Hm.
    assert (x ∈ l2) as Hx2 by (apply Hl2, Hl1; done).
    destruct (first_of_its_config_exists _ _ Hx2) as (d0 & Hfirst & Hc).
    exists d0. split; [by apply Hr|done].
Qed.

Lemma match_stage_nothing l : match_stage (mkQuery None None None None) l = l.
Proof.
  unfold match_stage. induction l as [|a l IH]; [done|].
  rewrite filter_cons_True by done. by rewrite IH.
Qed.

Lemma query_configs_run app env w :
  outage w = None ->
  run (query_configs app env) w
  = (Ret (sort_stage config_id_asc
            (replace_root_stage
               (group_stage
                  (sort_stage config_id_asc_version_desc
                     (match_stage (effective_filter app env) (docs w)))))),
     w).
Proof.
  intros Ho. unfold query_configs. server_call Ho.
  unfold effective_filter.
  destruct (truthy app), (truthy env); simpl; try done.
  by rewrite match_stage_nothing.
Qed.

(** C5, as amended. In any collection the store can hold, with the server
    reachable, [query_configs] returns, by strictly ascending config_id,
    exactly the latest-version documents of the configurations that satisfy
    the filter in force: one document per such configuration, none for any
    other. The filter in force is the stated one, except that an argument
    given as the empty string filters nothing. *)
Theorem query_configs_latest_per_config evs oid o t drv app env :
  let w := exec_all evs (empty_world oid o t drv) in
  outage w = None ->
  exists r,
    run (query_configs app env) w = (Ret r, w)
    /\ latest_per_config (effective_filter app env) (docs w) r.
Proof.
  intros w Ho.
  destruct (exec_all_keeps_shape evs (empty_world oid o t drv)
              gapless_nil identity_fixed_nil) as [Hg Hi].
  eexists. split; [by apply query_configs_run|].
  by apply pipeline_latest_per_config.
Qed.

Lemma query_configs_latest_per_config_witness :
  exists r,
    run (query_configs (Some "X") None) (exec_all sample_history fresh)
    = (Ret r, exec_all sample_history fresh)
    /\ latest_per_config (effective_filter (Some "X") None)
         (docs (exec_all sample_history fresh)) r.
Proof.
  apply (query_configs_latest_per_config sample_history 0%nat None
           "2024-05-01T10:00:00" bson_refusal (Some "X") None).
  reflexivity.
Defined.

Example query_configs_sample :
  fst (run (query_configs (Some "X") (Some "dev"))
         (exec_all sample_history fresh)) = Ret [cfg1_v3]
  /\ fst (run (query_configs (Some "Y") None)
            (exec_all sample_history fresh)) = Ret [].
Proof. vm_compute. done. Qed.

(** C5 as stated fails for an empty-string filter: asked for the
    configurations whose app_name is the empty string, [query_configs]
    returns cfg1, whose app_name is "X". *)
Lemma query_configs_empty_filter_counterexample :
  fst (run (query_configs (Some "") None) (exec_all sample_history fresh))
  = Ret [cfg1_v3]
  /\ ~ latest_per_config (stated_filter (Some "") None)
         (docs (exec_all sample_history fresh)) [cfg1_v3].
Proof.
  split; [vm_compute; reflexivity|].
  intros (_ & Hmem & _). destruct (Hmem cfg1_v3) as [Hin _].
  destruct Hin as (_ & Hm & _); [by left|]. vm_compute in Hm. done.
Qed.

(** * Properties of webhook delivery *)

(** ** One attempt *)

Lemma attempt_transient event cfg net :
  transient (endpoint net (url cfg) (posted net)) ->
  exists msg,
    dispatch_with_retry_attempt event cfg net
    = (Raise (RequestsConnectionError msg), after_post net).
Proof.
  unfold dispatch_with_retry_attempt, dispatch_webhook, post, transient.
  destruct (endpoint net (url cfg) (posted net)) as [code text|err]; simpl.
  - intros Hc. assert ((code <? 300) = false) as -> by lia.
    rewrite andb_false_r. assert ((500 <=? code) = true) as -> by lia.
    simpl. by eexists.
  - intros _. by eexists.
Qed.

Lemma attempt_accepted event cfg net :
  accepted (endpoint net (url cfg) (posted net)) ->
  exists result,
    dispatch_with_retry_attempt event cfg net = (Ret result, after_post net)
    /\ success result = true.
Proof.
  unfold dispatch_with_retry_attempt, dispatch_webhook, post, accepted.
  destruct (endpoint net (url cfg) (posted net)) as [code text|err]; simpl;
    [|done].
  intros Hc. assert ((200 <=? code) = true) as -> by lia.
  assert ((code <? 300) = true) as -> by lia. simpl. by eexists.
Qed.

Lemma attempt_rejected event cfg net :
  rejected (endpoint net (url cfg) (posted net)) ->
  exists result,
    dispatch_with_retry_attempt event cfg net = (Ret result, after_post net)
    /\ success result = false.
Proof.
  unfold dispatch_with_retry_attempt, dispatch_webhook, post, rejected.
  destruct (endpoint net (url cfg) (posted net)) as [code text|err]; simpl;
    [|done].
  intros [Hn Hc]. assert ((500 <=? code) = false) as -> by lia.
  rewrite andb_false_r.
  assert ((200 <=? code) && (code <? 300) = false) as -> by lia.
  by eexists.
Qed.

(** ** The retry loop *)

(** [n] transient failures followed by an acceptance, with room for them
    before attempt 3: the loop returns the accepted result after [n+1]
    requests. *)
Lemma retry_call_until_accepted event cfg n :
  forall fuel a net,
    (n < fuel)%nat -> a + Z.of_nat n <= 3 ->
    (forall i, (i < n)%nat ->
               transient (endpoint net (url cfg) (posted net + i))) ->
    accepted (endpoint net (url cfg) (posted net + n)) ->
    exists result net',
      retry_call fuel a (stop_after_attempt 3) (wait_exponential 1 1 60)
        retry_if_exception_type (dispatch_with_retry_attempt event cfg) net
      = (Ret result, net')
      /\ success result = true
      /\ posted net' = (posted net + n + 1)%nat.
Proof.
  induction n as [|n IH]; intros fuel a net Hfuel Ha Hfail Hok;
    (destruct fuel as [|fuel]; [lia|]); cbn [retry_call].
  - rewrite Nat.add_0_r in Hok.
    destruct (attempt_accepted event cfg net Hok) as (result & -> & Hs).
    exists result, (after_post net). simpl. repeat split; [done|lia].
  - pose proof (Hfail 0%nat ltac:(lia)) as H0. rewrite Nat.add_0_r in H0.
    destruct (attempt_transient event cfg net H0) as (msg & ->).
    cbn [retry_if_exception_type]. unfold stop_after_attempt at 1.
    assert ((3 <=? a) = false) as -> by lia.
    destruct (IH fuel (a + 1) (sleep (wait_exponential 1 1 60 a)
                                 (after_post net)))
      as (result & net' & -> & Hs & Hp); simpl.
    + lia.
    + lia.
    + intros i Hi. rewrite <- Nat.add_succ_r. apply Hfail. lia.
    + by rewrite <- Nat.add_succ_r.
    + exists result, net'. repeat split; [done|]. simpl in Hp. lia.
Qed.

Lemma dispatch_with_retry_exhausted event cfg net :
  (forall i, (i < 3)%nat ->
             transient (endpoint net (url cfg) (posted net + i))) ->
  exists msg,
    dispatch_with_retry event cfg net
    = (Raise (RetryError msg),
       mkNet (endpoint net) (posted net + 3) (slept net ++ [1; 2])).
Proof.
  intros Hfail. unfold dispatch_with_retry. cbn [retry_call].
  pose proof (Hfail 0%nat ltac:(lia)) as H0. rewrite Nat.add_0_r in H0.
  destruct (attempt_transient event cfg net H0) as (m0 & ->).
  cbn [retry_if_exception_type].
  change (stop_after_attempt 3 1) with false.
  change (wait_exponential 1 1 60 1) with 1. cbv iota.
  set (net1 := sleep 1 (after_post net)).
  pose proof (Hfail 1%nat ltac:(lia)) as H1. rewrite Nat.add_1_r in H1.
  destruct (attempt_transient event cfg net1 H1) as (m1 & ->).
  cbn [retry_if_exception_type].
  change (stop_after_attempt 3 (1 + 1)) with false.
  change (wait_exponential 1 1 60 (1 + 1)) with 2. cbv iota.
  set (net2 := sleep 2 (after_post net1)).
  pose proof (Hfail 2%nat ltac:(lia)) as H2.
  replace (posted net + 2)%nat with (posted net2) in H2
    by (unfold net2, net1; simpl; lia).
  destruct (attempt_transient event cfg net2 H2) as (m2 & ->).
  cbn [retry_if_exception_type].
  change (stop_after_attempt 3 (1 + 1 + 1)) with true. cbv iota.
  exists m2. unfold net2, net1, sleep, after_post; simpl.
  f_equal. f_equal; [lia|]. by rewrite <- app_assoc.
Qed.

Lemma dispatch_with_retry_rejected event cfg net :
  rejected (endpoint net (url cfg) (posted net)) ->
  exists result,
    dispatch_with_retry event cfg net = (Ret result, after_post net)
    /\ success result = false.
Proof.
  intros Hr. unfold dispatch_with_retry. cbn [retry_call].
  destruct (attempt_rejected event cfg net Hr) as (result & -> & Hs).
  by exists result.
Qed.

(** The decorator's limits are constants: the subscriber's own
    [retry_attempts] and [retry_delay] are never read. *)
Lemma dispatch_with_retry_ignores_settings event u ev sec en tmo a d a' d' net :
  dispatch_with_retry event (mkWebhookConfig u ev sec en tmo a d) net
  = dispatch_with_retry event (mkWebhookConfig u ev sec en tmo a' d') net.
Proof. reflexivity. Qed.

(** ** The counters *)

Lemma counted_here f u (st : gmap string Counters) :
  default (mkCounters 0 0) (alter f u (setdefault u st) !! u)
  = f (default (mkCounters 0 0) (st !! u)).
Proof.
  unfold setdefault. rewrite lookup_alter_eq.
  destruct (st !! u) as [c|] eqn:Hu; [by rewrite Hu|].
  by rewrite lookup_insert_eq.
Qed.

Lemma counted_elsewhere f u u' (st : gmap string Counters) :
  u' <> u -> alter f u (setdefault u st) !! u' = st !! u'.
Proof.
  intros Hne. rewrite lookup_alter_ne by done. unfold setdefault.
  destruct (st !! u); [done|]. by rewrite lookup_insert_ne.
Qed.

(** C10. A delivery whose first [n] attempts fail transiently and whose
    next attempt, still within the three the decorator allows, is accepted:
    the task ends normally, the subscriber's success counter has grown by
    exactly one, its failure counter and every other subscriber's counters
    are as they were, and [n+1] requests were made. *)
Theorem success_counted_once event cfg m net n :
  (n < 3)%nat ->
  (forall i, (i < n)%nat ->
             transient (endpoint net (url cfg) (posted net + i))) ->
  accepted (endpoint net (url cfg) (posted net + n)) ->
  exists m' net',
    _dispatch event cfg (Some m) net = (Ret tt, Some m', net')
    /\ successes (counters m' (url cfg)) = successes (counters m (url cfg)) + 1
    /\ failures (counters m' (url cfg)) = failures (counters m (url cfg))
    /\ (forall u, u <> url cfg -> stats m' !! u = stats m !! u)
    /\ posted net' = (posted net + n + 1)%nat.
Proof.
  intros Hn Hfail Hok. unfold _dispatch, dispatch_with_retry.
  destruct (retry_call_until_accepted event cfg n 3%nat 1 net)
    as (result & net' & -> & Hs & Hp); [lia|lia|done..|].
  rewrite Hs. eexists _, net'. split; [reflexivity|].
  unfold counters; cbn [stats]. rewrite counted_here.
  split; [done|]. split; [done|]. split; [|done].
  intros u Hu. by apply counted_elsewhere.
Qed.

Lemma success_counted_once_witness :
  exists m' net',
    _dispatch sample_event hook (Some manager0) twice_500_then_200
    = (Ret tt, Some m', net')
    /\ successes (counters m' (url hook))
       = successes (counters manager0 (url hook)) + 1
    /\ failures (counters m' (url hook))
       = failures (counters manager0 (url hook))
    /\ (forall u, u <> url hook -> stats m' !! u = stats manager0 !! u)
    /\ posted net' = (posted twice_500_then_200 + 2 + 1)%nat.
Proof.
  apply (success_counted_once sample_event hook manager0
           twice_500_then_200 2).
  - lia.
  - intros [|[|i]] Hi; simpl; lia.
  - simpl. lia.
Defined.

(** X13. A rejected delivery (4xx and the like) is final after one request
    and counts as one failure. *)
Lemma rejection_counted_once event cfg m net :
  rejected (endpoint net (url cfg) (posted net)) ->
  exists m',
    _dispatch event cfg (Some m) net = (Ret tt, Some m', after_post net)
    /\ successes (counters m' (url cfg)) = successes (counters m (url cfg))
    /\ failures (counters m' (url cfg)) = failures (counters m (url cfg)) + 1.
Proof.
  intros Hr. unfold _dispatch.
  destruct (dispatch_with_retry_rejected event cfg net Hr)
    as (result & -> & Hs).
  rewrite Hs. eexists. split; [reflexivity|].
  unfold counters; cbn [stats]. by rewrite counted_here.
Qed.

(** Three transient failures: RetryError leaves [dispatch_with_retry] and
    ends the task; the manager is as it was. *)
Lemma exhaustion_not_counted event cfg m net :
  (forall i, (i < 3)%nat ->
             transient (endpoint net (url cfg) (posted net + i))) ->
  exists msg,
    _dispatch event cfg m net
    = (Raise (RetryError msg), m,
       mkNet (endpoint net) (posted net + 3) (slept net ++ [1; 2])).
Proof.
  intros Hfail. unfold _dispatch.
  destruct (dispatch_with_retry_exhausted event cfg net Hfail) as (msg & ->).
  by exists msg.
Qed.

(** C8, on a remote that answers 503 to every attempt: the task ends by
    RetryError after the third request and neither counter of the
    subscriber has moved; after [dispatch_event] the subscriber's entry
    reads 0 successes, 0 failures. A remote that answers 400 does get its
    failure counted. *)
Theorem exhausted_delivery_not_counted :
  _dispatch sample_event hook (Some manager0) always_503
  = (Raise (RetryError "Webhook delivery failed: unavailable"),
     Some manager0,
     mkNet (endpoint always_503) 3 [1; 2])
  /\ stats (fst (dispatch_event sample_event manager0 always_503))
       !! url hook = Some (mkCounters 0 0)
  /\ stats (fst (dispatch_event sample_event manager0 always_400))
       !! url hook = Some (mkCounters 0 1).
Proof. vm_compute. done. Qed.

(** C7, on the same remote: a subscriber configured for five attempts, and
    one configured for a single attempt, both get exactly three requests
    with waits of 1 and 2 seconds in between; a 400 is final after one
    request. *)
Theorem retry_attempts_not_consulted :
  retry_attempts hook5 = 5 /\ retry_attempts hook1 = 1
  /\ dispatch_with_retry sample_event hook5 always_503
     = (Raise (RetryError "Webhook delivery failed: unavailable"),
        mkNet (endpoint always_503) 3 [1; 2])
  /\ dispatch_with_retry sample_event hook1 always_503
     = (Raise (RetryError "Webhook delivery failed: unavailable"),
        mkNet (endpoint always_503) 3 [1; 2])
  /\ dispatch_with_retry sample_event hook5 always_400
     = (Ret (mkDispatchResult (Some 400) "bad request" false),
        mkNet (endpoint always_400) 1 []).
Proof. vm_compute. done. Qed.

(** * The store under interleaved requests *)

Lemma safe_mono {A} (p : Prog A) l l' :
  l `prefix_of` l' -> safe p l -> safe p l'.
Proof.
  intros Hl. destruct p as [r|X c k]; [done|]. simpl.
  intros Hs w Hw. apply Hs. by etrans.
Qed.

(** In a gapless collection, a free key between 1 and one past the number
    of versions is the next version. *)
Lemma free_key_is_next l d :
  gapless l -> key_taken d l = false ->
  1 <= version d <= Z.of_nat (length (versions_of (config_id d) l)) + 1 ->
  version d = Z.of_nat (length (versions_of (config_id d) l)) + 1.
Proof.
  intros Hg Hk Hr.
  destruct (decide (version d
                    = Z.of_nat (length (versions_of (config_id d) l)) + 1))
    as [|Hne]; [done|exfalso].
  assert (version d ∈ version <$> versions_of (config_id d) l) as Hv.
  { rewrite (Hg (config_id d)). apply elem_of_seqZ. lia. }
  apply list_elem_of_fmap in Hv as (d' & Hv & Hd').
  apply list_elem_of_filter in Hd' as [Hc Hd'].
  rewrite key_taken_false in Hk. by apply (Hk d').
Qed.

Lemma insert_one_keeps_shape d w :
  shape (docs w) ->
  (key_taken d (docs w) = false -> next_in_line (docs w) d) ->
  docs w `prefix_of` docs (snd (perform (InsertOne d) w))
  /\ shape (docs (snd (perform (InsertOne d) w))).
Proof.
  intros [Hg Hi] Hnext. simpl. unfold guarded, insert_one.
  destruct (outage w); [done|].
  destruct (int64 (version d)); [|done]. cbn [negb].
  destruct (refused w d); [done|].
  destruct (key_taken d (docs w)) eqn:Hk; [done|]. simpl.
  destruct (Hnext eq_refl) as [Hv Hid].
  split; [by apply prefix_app_r|]. split.
  - by apply gapless_snoc.
  - by apply identity_fixed_snoc.
Qed.

(** Inserting the successor of a document read earlier. *)
Lemma successor_next_in_line l src d :
  shape l -> src ∈ l -> config_id d = config_id src ->
  version d = version src + 1 ->
  (forall x, x ∈ l -> config_id x = config_id d -> same_identity x d) ->
  key_taken d l = false -> next_in_line l d.
Proof.
  intros [Hg Hi] Hsrc Hc Hv Hid Hk. split; [|done].
  apply free_key_is_next; [done..|].
  pose proof (versions_in_range l src Hg Hsrc) as Hr.
  rewrite Hc. lia.
Qed.

Lemma first_next_in_line l d :
  shape l -> version d = 1 -> key_taken d l = false -> next_in_line l d.
Proof.
  intros [Hg Hi] Hv Hk.
  assert (version d = Z.of_nat (length (versions_of (config_id d) l)) + 1)
    as Hn by (apply free_key_is_next; [done..|lia]).
  split; [done|]. intros x Hx Hc.
  assert (x ∈ versions_of (config_id d) l) as Hin
    by (by apply list_elem_of_filter).
  destruct (versions_of (config_id d) l); [|simpl in Hn; lia].
  by apply not_elem_of_nil in Hin.
Qed.

Lemma elem_of_prefix_of (l l' : list Document) x :
  l `prefix_of` l' -> x ∈ l -> x ∈ l'.
Proof. intros [tail ->] Hx. apply elem_of_app. by left. Qed.

(** The insert that ends a method, when the document is next in line
    wherever its key is still free. *)
Lemma safe_insert_last {A} d (k : PyResult ObjectId -> Prog A) seen :
  (forall r, exists res, k r = Done res) ->
  (forall w, seen `prefix_of` docs w -> shape (docs w) ->
             key_taken d (docs w) = false -> next_in_line (docs w) d) ->
  safe (Call (InsertOne d) k) seen.
Proof.
  intros Hk Hnext w Hpre Hsh. cbn [safe].
  destruct (insert_one_keeps_shape d w Hsh (Hnext w Hpre Hsh)) as [H1 H2].
  split; [done|]. split; [done|].
  destruct (Hk (fst (perform (InsertOne d) w))) as [res ->]. exact I.
Qed.

Lemma safe_find_one {A} q (k : PyResult (option Document) -> Prog A) seen :
  (forall w, seen `prefix_of` docs w -> shape (docs w) ->
             safe (k (fst (guarded w
                             (sent q w (Ret (first_match q (docs w)), w)))))
                  (docs w)) ->
  safe (Call (FindOne q) k) seen.
Proof.
  intros Hk w Hpre Hsh. specialize (Hk w Hpre Hsh). cbn [safe perform].
  unfold guarded, sent in *.
  destruct (outage w); [done|]. by destruct (filter_refusal q).
Qed.

Lemma safe_find_one_latest {A} q (k : PyResult (option Document) -> Prog A)
    seen :
  (forall w, seen `prefix_of` docs w -> shape (docs w) ->
             safe (k (fst (guarded w
                             (sent q w (Ret (latest_match q (docs w)), w)))))
                  (docs w)) ->
  safe (Call (FindOneLatest q) k) seen.
Proof.
  intros Hk w Hpre Hsh. specialize (Hk w Hpre Hsh). cbn [safe perform].
  unfold guarded, sent in *.
  destruct (outage w); [done|]. by destruct (filter_refusal q).
Qed.

Lemma safe_utcnow {A} (k : PyResult string -> Prog A) seen :
  (forall w, seen `prefix_of` docs w -> safe (k (Ret (clock w))) (docs w)) ->
  safe (Call Utcnow k) seen.
Proof.
  intros Hk w Hpre Hsh. cbn [safe perform fst snd].
  split; [done|]. split; [done|]. by apply Hk.
Qed.

Lemma safe_create cd u n : safe (create_config cd u n) [].
Proof.
  destruct cd as [[cid|] [app|] [env|] [st|]]; try exact I.
  unfold create_config. cbn -[safe]. apply safe_find_one.
  intros w _ Hsh. unfold guarded, sent.
  destruct (outage w); cbn -[safe]; [exact I|].
  destruct (first_match (by_config_id cid) (docs w)); cbn -[safe];
    [exact I|].
  apply safe_utcnow. intros w0 Hpre0. cbn -[safe].
  apply safe_insert_last; [intros [?|[]]; by eexists|].
  intros w1 _ Hsh1 Hk. by apply first_next_in_line.
Qed.

Lemma safe_update cid st u n : safe (update_config cid st u n) [].
Proof.
  unfold update_config. cbn -[safe]. apply safe_find_one_latest.
  intros w _ Hsh. unfold guarded, sent.
  destruct (outage w); cbn -[safe]; [exact I|].
  destruct (latest_match (by_config_id cid) (docs w)) as [latest|] eqn:Hl;
    cbn -[safe]; [|exact I].
  apply latest_match_Some in Hl as (Hin & Hc & _).
  apply safe_utcnow. intros w0 Hpre0. cbn -[safe].
  apply safe_insert_last; [intros [?|[]]; by eexists|].
  intros w1 Hpre1 Hsh1 Hk.
  assert (latest ∈ docs w1) as Hin1.
  { eapply elem_of_prefix_of; [exact Hpre1|].
    eapply elem_of_prefix_of; [exact Hpre0|done]. }
  apply (successor_next_in_line _ latest); try done.
  intros x Hx Hcx. destruct Hsh1 as [_ Hi1].
  apply (same_identity_trans _ latest).
  - apply Hi1; [done..|]. cbn in Hcx. congruence.
  - by repeat split.
Qed.

Lemma safe_rollback cid k u n : safe (rollback_config cid k u n) [].
Proof.
  unfold rollback_config, get_latest_config. cbn -[safe].
  apply safe_find_one. intros w _ Hsh. unfold guarded, sent, filter_refusal.
  destruct (outage w); cbn -[safe]; [exact I|].
  destruct (int64 k); cbn -[safe]; [|exact I].
  destruct (first_match (by_config_id_version cid k) (docs w))
    as [target|] eqn:Ht; cbn -[safe]; [|exact I].
  apply first_match_Some in Ht as [Htin Htm].
  apply matches_by_config_id_version in Htm as [Htc _].
  apply safe_find_one_latest. intros w0 Hpre0 Hsh0. unfold guarded, sent.
  destruct (outage w0); cbn -[safe]; [exact I|].
  destruct (latest_match (by_config_id cid) (docs w0)) as [latest|] eqn:Hl;
    cbn -[safe]; [|exact I].
  apply latest_match_Some in Hl as (Hin & Hc & _).
  apply safe_utcnow. intros w1 Hpre1. cbn -[safe].
  apply safe_insert_last; [intros [?|[]]; by eexists|].
  intros w2 Hpre2 Hsh2 Hk.
  assert (latest ∈ docs w2) as Hin2.
  { eapply elem_of_prefix_of; [exact Hpre2|].
    eapply elem_of_prefix_of; [exact Hpre1|done]. }
  assert (target ∈ docs w2) as Htin2.
  { eapply elem_of_prefix_of; [exact Hpre2|].
    eapply elem_of_prefix_of; [exact Hpre1|].
    eapply elem_of_prefix_of; [exact Hpre0|done]. }
  apply (successor_next_in_line _ latest); try done.
  intros x Hx Hcx. destruct Hsh2 as [_ Hi2].
  apply (same_identity_trans _ target).
  - apply Hi2; [done..|]. cbn in Hcx. congruence.
  - by repeat split.
Qed.

Lemma safe_write r seen : safe (write_prog r) seen.
Proof.
  apply (safe_mono _ []); [apply prefix_nil|].
  destruct r; [apply safe_create|apply safe_update|apply safe_rollback].
Qed.

Lemma step_safe {A} (p : Prog A) w :
  shape (docs w) -> safe p (docs w) ->
  docs w `prefix_of` docs (snd (step p w))
  /\ shape (docs (snd (step p w)))
  /\ safe (fst (step p w)) (docs (snd (step p w))).
Proof.
  intros Hsh Hs. destruct p as [r|X c k]; [done|].
  cbn [safe] in Hs. specialize (Hs w (reflexivity _) Hsh).
  unfold step. by destruct (perform c w).
Qed.

Lemma interleave_keeps_shape {A} schedule :
  forall (pool : list (Prog A)) w,
    shape (docs w) -> Forall (fun p => safe p (docs w)) pool ->
    shape (docs (snd (interleave schedule pool w)))
    /\ docs w `prefix_of` docs (snd (interleave schedule pool w))
    /\ Forall (fun p => safe p (docs (snd (interleave schedule pool w))))
              (fst (interleave schedule pool w)).
Proof.
  induction schedule as [|i schedule IH]; intros pool w Hsh Hpool; [done|].
  cbn [interleave]. destruct (pool !! i) as [p|] eqn:Hp; [|by apply IH].
  assert (safe p (docs w)) as Hs
    by (rewrite Forall_forall in Hpool; apply Hpool;
        by eapply list_elem_of_lookup_2).
  destruct (step_safe p w Hsh Hs) as (Hpre & Hsh' & Hs').
  destruct (step p w) as [p' w'] eqn:Hstep. cbn [fst snd] in *.
  destruct (IH (<[i := p']> pool) w' Hsh') as (H1 & H2 & H3).
  - apply Forall_insert; [|done].
    eapply Forall_impl; [exact Hpool|]. intros q. by apply safe_mono.
  - split; [done|]. split; [by etrans|done].
Qed.

(** X25. However the calls of any number of create, update and rollback
    requests interleave, started on an empty collection: the versions of
    every configuration still count 1, 2, 3, ... in insertion order, and its
    identity fields still agree across versions. *)
Theorem interleaved_writes_keep_shape schedule requests oid o t drv :
  shape (docs (snd (interleave schedule (write_prog <$> requests)
                      (empty_world oid o t drv)))).
Proof.
  apply interleave_keeps_shape.
  - split; [apply gapless_nil|apply identity_fixed_nil].
  - apply Forall_fmap, Forall_forall. intros r _. apply safe_write.
Qed.

(** Two updates racing from latest version 3: both read 3, one inserts
    version 4, the other's insert of version 4 hits the unique index and the
    method raises its RuntimeError wrapper; nothing is overwritten. *)
Example racing_updates :
  let res :=
    interleave [0; 1; 0; 1; 0; 1]%nat
      [update_config "cfg1" (JObj [("a", JNum 7)]) None None;
       update_config "cfg1" (JObj [("a", JNum 8)]) None None]
      (exec_all sample_history fresh) in
  map version (docs (snd res)) = [1; 2; 3; 4]
  /\ map (fun p => is_ret <$> outcome p) (fst res) = [Some true; Some false]
  /\ fst res !! 1%nat
     = Some (Done (Raise (RuntimeError
          "Failed to update configuration: E11000 duplicate key error"))).
Proof. vm_compute. done. Qed.

(** * Further properties of the configuration store *)

(** ** Reading the latest version *)

Lemma get_latest_config_run cid w :
  outage w = None ->
  run (get_latest_config cid) w
  = (Ret (latest_match (by_config_id cid) (docs w)), w).
Proof. intros Ho. unfold get_latest_config. by server_call Ho. Qed.

(** X1. With the server reachable, [get_latest_config] leaves the world as
    it is and returns the stored document of the configuration whose version
    is greatest, or [None] exactly when the configuration has no stored
    version. *)
Theorem latest_config_is_greatest cid w :
  outage w = None ->
  exists r,
    run (get_latest_config cid) w = (Ret r, w)
    /\ match r with
       | Some d =>
           d ∈ docs w /\ config_id d = cid
           /\ forall x, x ∈ docs w -> config_id x = cid ->
                        version x <= version d
       | None => forall x, x ∈ docs w -> config_id x <> cid
       end.
Proof.
  intros Ho. eexists. split; [by apply get_latest_config_run|].
  destruct (latest_match (by_config_id cid) (docs w)) as [d|] eqn:Hl.
  - by apply latest_match_Some.
  - apply latest_match_None in Hl. intros x Hx Hc.
    assert (x ∈ versions_of cid (docs w)) as Hin
      by (by apply list_elem_of_filter).
    rewrite Hl in Hin. by apply not_elem_of_nil in Hin.
Qed.

Lemma latest_config_is_greatest_witness :
  exists r,
    run (get_latest_config "cfg1") (exec_all sample_history fresh)
    = (Ret r, exec_all sample_history fresh)
    /\ match r with
       | Some d =>
           d ∈ docs (exec_all sample_history fresh) /\ config_id d = "cfg1"
           /\ forall x, x ∈ docs (exec_all sample_history fresh) ->
                        config_id x = "cfg1" -> version x <= version d
       | None => forall x, x ∈ docs (exec_all sample_history fresh) ->
                           config_id x <> "cfg1"
       end.
Proof.
  apply (latest_config_is_greatest "cfg1" (exec_all sample_history fresh)).
  reflexivity.
Defined.

(** ** Reading back what was written *)

Lemma max_version_snoc l d :
  (forall x, x ∈ l -> version x < version d) ->
  max_version (l ++ [d]) = Some d.
Proof.
  induction l as [|a l IH]; intros Hlt; [done|]. simpl.
  rewrite IH by (intros x Hx; apply Hlt; by right).
  assert (version a < version d) as Ha by (apply Hlt; by left).
  by rewrite (proj2 (Z.ltb_lt _ _) Ha).
Qed.

Lemma first_match_snoc q l d :
  first_match q l = None -> matches q d = true ->
  first_match q (l ++ [d]) = Some d.
Proof.
  unfold first_match. rewrite head_None. intros Hnil Hm.
  rewrite filter_app, Hnil. simpl.
  by rewrite filter_cons_True, filter_nil.
Qed.

(** The version of a document that was written fits 8 bytes. *)
Lemma write_int64 r w d w' :
  run (write_prog r) w = (Ret d, w') -> int64 (version d) = true.
Proof.
  destruct r as [cd u n|cid st u n|cid k u n]; cbn [write_prog].
  - intros [Hv _]%create_config_returns. by rewrite Hv.
  - destruct (update_config_cases cid st u n w)
      as [[e ->]|(latest & Ho & Hl & Hrun)]; [done|].
    destruct (int64 (version latest + 1)) eqn:Hv.
    + rewrite Hrun. by intros [= <- _].
    + exfalso. revert Hrun. unfold update_config. server_call Ho.
      rewrite Hl. server_call Ho. by rewrite Hv.
  - destruct (rollback_config_cases cid k u n w)
      as [[e ->]|(target & latest & Ho & Ht & Hl & Hrun)]; [done|].
    destruct (int64 k) eqn:Hk.
    2:{ exfalso. revert Hrun. unfold rollback_config. server_call Ho.
        unfold filter_refusal; cbn. by rewrite Hk. }
    destruct (int64 (version latest + 1)) eqn:Hv.
    + rewrite Hrun. by intros [= <- _].
    + exfalso. revert Hrun. unfold rollback_config. server_call Ho.
      unfold filter_refusal; cbn. rewrite Hk, Ht. server_call Ho.
      rewrite Hl. server_call Ho. by rewrite Hv.
Qed.

(** What a successful write appends: a document above every stored version
    of its configuration. *)
Lemma write_tops r w d w' :
  run (write_prog r) w = (Ret d, w') ->
  w' = appended w d /\ outage w = None
  /\ forall x, x ∈ docs w -> config_id x = config_id d ->
               version x < version d.
Proof.
  destruct r as [cd u n|cid st u n|cid k u n]; cbn [write_prog].
  - destruct (create_config_cases cd u n w)
      as [[e ->]|(cid & app & env & st & _ & Ho & Hf & ->)]; [done|].
    intros [= <- <-]. repeat split; [done|]. cbn. intros x Hx Hc.
    rewrite first_match_None in Hf. specialize (Hf x Hx).
    apply not_true_iff_false in Hf. destruct Hf.
    by apply matches_by_config_id.
  - destruct (update_config_cases cid st u n w)
      as [[e ->]|(latest & Ho & Hl & ->)]; [done|].
    intros [= <- <-]. repeat split; [done|]. cbn. intros x Hx Hc.
    apply latest_match_Some in Hl as (_ & _ & Hmax).
    specialize (Hmax x Hx Hc). lia.
  - destruct (rollback_config_cases cid k u n w)
      as [[e ->]|(target & latest & Ho & _ & Hl & ->)]; [done|].
    intros [= <- <-]. repeat split; [done|]. cbn. intros x Hx Hc.
    apply latest_match_Some in Hl as (_ & _ & Hmax).
    specialize (Hmax x Hx Hc). lia.
Qed.

(** X2. Whatever create, update or rollback returns can be read back at
    once: in the world the write leaves, [get_latest_config] of the
    document's configuration returns that very document, and so does
    [get_config_version] at the document's version. *)
Theorem write_then_read r w d w' :
  run (write_prog r) w = (Ret d, w') ->
  run (get_latest_config (config_id d)) w' = (Ret (Some d), w')
  /\ run (get_config_version (config_id d) (version d)) w' = (Ret (Some d), w').
Proof.
  intros Hrun. pose proof (write_int64 _ _ _ _ Hrun) as Hfits.
  apply write_tops in Hrun as (-> & Ho & Htop).
  assert (outage (appended w d) = None) as Ho' by done.
  split.
  - rewrite get_latest_config_run by done. do 2 f_equal.
    rewrite latest_match_by_config_id. cbn [appended docs].
    rewrite versions_of_app. unfold versions_of at 2.
    rewrite filter_singleton by exact []. rewrite decide_True by done.
    apply max_version_snoc. intros x [Hc Hx]%list_elem_of_filter. auto.
  - unfold get_config_version. server_call Ho'.
    unfold filter_refusal; cbn. rewrite Hfits. cbn. do 2 f_equal.
    apply first_match_snoc; [|by apply matches_by_config_id_version].
    apply first_match_None. intros x Hx. apply not_true_iff_false.
    intros [Hc Hv]%matches_by_config_id_version.
    specialize (Htop x Hx Hc). lia.
Qed.

Lemma write_then_read_witness :
  run (get_latest_config (config_id cfg1_v1')) (appended fresh cfg1_v1')
  = (Ret (Some cfg1_v1'), appended fresh cfg1_v1')
  /\ run (get_config_version (config_id cfg1_v1') (version cfg1_v1'))
         (appended fresh cfg1_v1')
     = (Ret (Some cfg1_v1'), appended fresh cfg1_v1').
Proof.
  apply (write_then_read (Create cfg1_data None None) fresh).
  reflexivity.
Defined.

(** ** History *)

#[global] Instance version_desc_total : Total version_desc.
Proof. intros a b. unfold version_desc. lia. Qed.

#[global] Instance version_desc_trans : Transitive version_desc.
Proof. intros a b c. unfold version_desc. lia. Qed.

Lemma seqZ_ascending n : forall m, StronglySorted Z.lt (seqZ m (Z.of_nat n)).
Proof.
  induction n as [|n IH]; intros m; [constructor|].
  rewrite seqZ_cons by lia. constructor.
  - replace (Z.pred (Z.of_nat (S n))) with (Z.of_nat n) by lia. apply IH.
  - apply Forall_forall. intros x Hx. apply elem_of_seqZ in Hx. lia.
Qed.

Lemma ascending_by_version (l : list Document) :
  StronglySorted Z.lt (version <$> l) ->
  StronglySorted (fun a b => version a < version b) l.
Proof.
  induction l as [|a l IH]; csimpl; [constructor|].
  intros [Hall Hs]%StronglySorted_cons. constructor; [by apply IH|].
  by rewrite Forall_fmap in Hall.
Qed.

Lemma descending_reverse (l : list Document) :
  StronglySorted (fun a b => version a < version b) l ->
  StronglySorted version_desc (reverse l).
Proof.
  induction 1 as [|a l Hs IH Hall]; [constructor|].
  rewrite reverse_cons. apply StronglySorted_app_2; [|done|repeat constructor].
  intros x y Hx ->%list_elem_of_singleton. rewrite elem_of_reverse in Hx.
  rewrite Forall_forall in Hall. specialize (Hall x Hx).
  unfold version_desc. lia.
Qed.

Lemma get_config_history_run cid w :
  outage w = None ->
  run (get_config_history cid) w
  = (Ret (merge_sort version_desc (versions_of cid (docs w))), w).
Proof.
  intros Ho. unfold get_config_history. server_call Ho.
  by rewrite filter_by_config_id.
Qed.

(** X3. After any history of requests started on an empty collection, with
    the server reachable, [get_config_history] returns the stored versions
    of the configuration newest first: the documents in reverse order of
    insertion, their versions counting N, N-1, ..., 1, the first of them
    being what [get_latest_config] returns. *)
Theorem history_newest_first evs oid o t drv cid :
  let w := exec_all evs (empty_world oid o t drv) in
  outage w = None ->
  exists h,
    run (get_config_history cid) w = (Ret h, w)
    /\ h = reverse (versions_of cid (docs w))
    /\ version <$> h = reverse (seqZ 1 (Z.of_nat (length h)))
    /\ run (get_latest_config cid) w = (Ret (head h), w).
Proof.
  intros w Ho.
  destruct (exec_all_keeps_shape evs (empty_world oid o t drv)
              gapless_nil identity_fixed_nil) as [Hg _]. fold w in Hg.
  set (vs := versions_of cid (docs w)).
  assert (StronglySorted (fun a b => version a < version b) vs) as Hasc.
  { apply ascending_by_version. unfold vs. rewrite (Hg cid).
    apply seqZ_ascending. }
  assert (merge_sort version_desc vs = reverse vs) as Hsort.
  { apply (StronglySorted_unique_strong version_desc).
    - intros a b Ha Hb Hab Hba. unfold version_desc in *.
      rewrite merge_sort_Permutation in Ha. rewrite elem_of_reverse in Hb.
      apply list_elem_of_filter in Ha as [Hca Ha].
      apply list_elem_of_filter in Hb as [Hcb Hb].
      apply (gapless_unique_key (docs w)); [done..|congruence|lia].
    - apply StronglySorted_merge_sort; apply _.
    - by apply descending_reverse.
    - by rewrite merge_sort_Permutation, reverse_Permutation. }
  exists (reverse vs). split; [|split; [done|split]].
  - rewrite get_config_history_run by done. fold vs. by rewrite Hsort.
  - rewrite fmap_reverse, length_reverse. unfold vs. by rewrite (Hg cid).
  - rewrite get_latest_config_run by done. do 2 f_equal.
    rewrite latest_match_by_config_id. fold vs.
    rewrite head_reverse. destruct (max_version vs) as [m|] eqn:Hm.
    + apply max_version_Some in Hm as [Hin Hmax].
      destruct (last vs) as [z|] eqn:Hz.
      2:{ apply last_None in Hz. rewrite Hz in Hin.
          by apply not_elem_of_nil in Hin. }
      f_equal. apply last_Some in Hz as [front Hz].
      assert (z ∈ vs) as Hzin
        by (rewrite Hz; apply elem_of_app; right; by left).
      apply list_elem_of_filter in Hin as [Hcm Hin].
      pose proof Hzin as Hzin'.
      apply list_elem_of_filter in Hzin' as [Hcz Hzd].
      apply (gapless_unique_key (docs w)); [done..|congruence|].
      apply Z.le_antisymm; [|by apply Hmax].
      rewrite Hz in Hasc. apply StronglySorted_app in Hasc as (Hlt & _ & _).
      assert (m ∈ vs) as Hmv by (by apply list_elem_of_filter).
      rewrite Hz in Hmv.
      apply elem_of_app in Hmv as [Hmf|Hmz].
      * specialize (Hlt m z Hmf ltac:(by left)). lia.
      * apply list_elem_of_singleton in Hmz. subst m. lia.
    + apply max_version_None in Hm. by rewrite Hm.
Qed.

Lemma history_newest_first_witness :
  exists h,
    run (get_config_history "cfg1") (exec_all sample_history fresh)
    = (Ret h, exec_all sample_history fresh)
    /\ h = reverse (versions_of "cfg1" (docs (exec_all sample_history fresh)))
    /\ version <$> h = reverse (seqZ 1 (Z.of_nat (length h)))
    /\ run (get_latest_config "cfg1") (exec_all sample_history fresh)
       = (Ret (head h), exec_all sample_history fresh).
Proof.
  apply (history_newest_first sample_history 0%nat None
           "2024-05-01T10:00:00" bson_refusal "cfg1").
  reflexivity.
Defined.

(** ** Deleting a configuration *)

Lemma delete_config_run cid w :
  outage w = None ->
  run (delete_config cid) w
  = (Ret (length (versions_of cid (docs w))),
     set_docs w (filter (fun d => matches (by_config_id cid) d <> true)
                        (docs w))).
Proof.
  intros Ho. unfold delete_config. server_call Ho.
  by rewrite filter_by_config_id.
Qed.

(** X4. With the server reachable, [delete_config] returns the number of
    stored versions of the configuration and removes exactly those: none of
    its versions is left, [get_latest_config] then returns [None], and the
    versions of every other configuration are stored as before, in the same
    order. *)
Theorem delete_config_removes_exactly cid w :
  outage w = None ->
  exists w',
    run (delete_config cid) w = (Ret (length (versions_of cid (docs w))), w')
    /\ versions_of cid (docs w') = []
    /\ (forall cid', cid' <> cid ->
                     versions_of cid' (docs w') = versions_of cid' (docs w))
    /\ run (get_latest_config cid) w' = (Ret None, w').
Proof.
  intros Ho. eexists. split; [by apply delete_config_run|].
  cbn [set_docs docs].
  assert (forall c, versions_of c
            (filter (fun d => matches (by_config_id cid) d <> true) (docs w))
          = if decide (c = cid) then [] else versions_of c (docs w)) as Hv
    by (intros c; apply versions_of_delete).
  split; [|split].
  - by rewrite Hv, decide_True.
  - intros cid' Hne. by rewrite Hv, decide_False.
  - rewrite get_latest_config_run by done. do 2 f_equal.
    apply latest_match_None. cbn [set_docs docs].
    by rewrite Hv, decide_True.
Qed.

Lemma delete_config_removes_exactly_witness :
  exists w',
    run (delete_config "cfg1") (exec_all sample_history fresh)
    = (Ret (length (versions_of "cfg1"
                      (docs (exec_all sample_history fresh)))), w')
    /\ versions_of "cfg1" (docs w') = []
    /\ (forall cid', cid' <> "cfg1" ->
          versions_of cid' (docs w')
          = versions_of cid' (docs (exec_all sample_history fresh)))
    /\ run (get_latest_config "cfg1") w' = (Ret None, w').
Proof.
  apply (delete_config_removes_exactly "cfg1"
           (exec_all sample_history fresh)).
  reflexivity.
Defined.

(** X5. A deleted configuration can be created anew: with the server
    reachable, [create_config] right after [delete_config] of the same
    config_id succeeds, whatever was stored before, provided the driver
    takes the new document; the new document is version 1, the only stored
    version, and its [created_at] is the clock reading of the new
    creation. *)
Theorem delete_then_create cid app env st u n w :
  outage w = None ->
  refused w (mkDocument None cid 1 app env st (clock w) (clock w) u
               (or_default n "Initial configuration creation")) = None ->
  let w1 := snd (run (delete_config cid) w) in
  exists d,
    run (create_config
           (mkConfigData (Some cid) (Some app) (Some env) (Some st)) u n) w1
    = (Ret d, appended w1 d)
    /\ version d = 1 /\ created_at d = clock w
    /\ versions_of cid (docs (appended w1 d)) = [d].
Proof.
  intros Ho Htaken w1.
  pose proof (delete_config_run cid w Ho) as Hrun.
  set (w' := set_docs w _) in Hrun.
  assert (versions_of cid (docs w') = []) as Hgone.
  { assert (forall c, versions_of c (docs w')
              = if decide (c = cid) then [] else versions_of c (docs w)) as Hv
      by (intros c; apply versions_of_delete).
    by rewrite Hv, decide_True. }
  assert (w1 = w') as -> by (unfold w1; by rewrite Hrun).
  assert (clock w' = clock w) as Hclock by done.
  assert (outage w' = None) as Ho' by done.
  assert (refused w' = refused w) as Hsame by done.
  clearbody w'.
  destruct (create_config_cases
              (mkConfigData (Some cid) (Some app) (Some env) (Some st)) u n w')
    as [[e Hraise]|(c & a & e & s & [= <- <- <- <-] & _ & _ & ->)].
  - exfalso. revert Hraise.
    unfold create_config. server_call Ho'.
    rewrite (proj2 (first_match_by_config_id_None cid (docs w')) Hgone).
    server_call Ho'. rewrite Hsame, Hclock, Htaken.
    match goal with |- context [key_taken ?d ?l] =>
      assert (key_taken d l = false) as ->
    end; [|done].
    apply key_taken_false. cbn. intros d' Hin Hc _.
    assert (d' ∈ versions_of cid (docs w')) as Hx
      by (by apply list_elem_of_filter).
    rewrite Hgone in Hx. by apply not_elem_of_nil in Hx.
  - eexists. split; [reflexivity|]. cbn [version created_at].
    split; [done|]. split; [done|]. cbn [appended docs].
    rewrite versions_of_app, Hgone. unfold versions_of.
    rewrite filter_singleton by exact []. by rewrite decide_True.
Qed.

Lemma delete_then_create_witness :
  let w1 := snd (run (delete_config "cfg1") (exec_all sample_history fresh)) in
  exists d,
    run (create_config
           (mkConfigData (Some "cfg1") (Some "Y") (Some "prod")
                         (Some JNull)) None None) w1
    = (Ret d, appended w1 d)
    /\ version d = 1
    /\ created_at d = clock (exec_all sample_history fresh)
    /\ versions_of "cfg1" (docs (appended w1 d)) = [d].
Proof.
  apply (delete_then_create "cfg1" "Y" "prod" JNull None None
           (exec_all sample_history fresh)).
  - reflexivity.
  - reflexivity.
Defined.

(** ** Writes that fail *)

(** X6. A create, update or rollback that raises has written nothing: the
    world it leaves is the world it found, collection, next ObjectId and
    all. *)
Theorem failed_write_changes_nothing r w e w' :
  run (write_prog r) w = (Raise e, w') -> w' = w.
Proof.
  destruct r as [cd u n|cid st u n|cid k u n]; cbn [write_prog].
  - destruct (create_config_cases cd u n w)
      as [[e0 ->]|(cid & app & env & st & _ & _ & _ & ->)];
      [by intros [= _ <-]|done].
  - destruct (update_config_cases cid st u n w)
      as [[e0 ->]|(latest & _ & _ & ->)]; [by intros [= _ <-]|done].
  - destruct (rollback_config_cases cid k u n w)
      as [[e0 ->]|(target & latest & _ & _ & _ & ->)];
      [by intros [= _ <-]|done].
Qed.

Lemma failed_write_changes_nothing_witness :
  run (write_prog (Update "nope" JNull None None))
      (exec_all sample_history fresh)
  = (Raise (ValueError "Configuration with config_id 'nope' not found"),
     exec_all sample_history fresh)
  /\ exec_all sample_history fresh = exec_all sample_history fresh.
Proof.
  split; [vm_compute; reflexivity|].
  apply (failed_write_changes_nothing
           (Update "nope" JNull None None)
           (exec_all sample_history fresh)
           (ValueError "Configuration with config_id 'nope' not found")).
  vm_compute. reflexivity.
Defined.

(** X7. With the server unreachable, every method but [get_config_version]
    raises RuntimeError carrying its own prefix and the driver's text, and
    leaves the world as it is: create (given all four keys), update,
    rollback, delete, [get_latest_config], [get_config_history] and
    [query_configs]. *)
Theorem outage_raises_runtime_error w m cid app env st k u n fa fe :
  outage w = Some m ->
  run (create_config
         (mkConfigData (Some cid) (Some app) (Some env) (Some st)) u n) w
  = (Raise (RuntimeError ("Failed to create configuration: " +:+ m)), w)
  /\ run (update_config cid st u n) w
     = (Raise (RuntimeError ("Failed to update configuration: " +:+ m)), w)
  /\ run (rollback_config cid k u n) w
     = (Raise (RuntimeError ("Failed to rollback configuration: " +:+ m)), w)
  /\ run (delete_config cid) w
     = (Raise (RuntimeError ("Failed to delete configuration: " +:+ m)), w)
  /\ run (get_latest_config cid) w
     = (Raise (RuntimeError ("Failed to retrieve configuration: " +:+ m)), w)
  /\ run (get_config_history cid) w
     = (Raise (RuntimeError
                 ("Failed to retrieve configuration history: " +:+ m)), w)
  /\ run (query_configs fa fe) w
     = (Raise (RuntimeError ("Failed to query configurations: " +:+ m)), w).
Proof.
  intros Ho.
  repeat split;
    [ unfold create_config | unfold update_config | unfold rollback_config
    | unfold delete_config | unfold get_latest_config
    | unfold get_config_history | unfold query_configs ];
    by server_call Ho.
Qed.

Lemma outage_raises_runtime_error_witness :
  run (update_config "cfg1" JNull None None)
      (exec (Link (Some "timed out")) fresh)
  = (Raise (RuntimeError "Failed to update configuration: timed out"),
     exec (Link (Some "timed out")) fresh).
Proof.
  refine (proj1 (proj2 (outage_raises_runtime_error
            (exec (Link (Some "timed out")) fresh) "timed out"
            "cfg1" "X" "dev" JNull 1 None None None None _))).
  reflexivity.
Defined.

(** X8. Updating a configuration that has no stored version raises
    ValueError saying it was not found, unwrapped, and writes nothing. *)
Theorem update_unknown_config cid st u n w :
  outage w = None ->
  (forall d, d ∈ docs w -> config_id d <> cid) ->
  run (update_config cid st u n) w
  = (Raise (ValueError ("Configuration with config_id '" +:+ cid
                          +:+ "' not found")), w).
Proof.
  intros Ho Hnone. unfold update_config. server_call Ho.
  assert (latest_match (by_config_id cid) (docs w) = None) as ->; [|done].
  apply latest_match_None.
  destruct (versions_of cid (docs w)) as [|d l] eqn:Hv; [done|].
  assert (d ∈ versions_of cid (docs w)) as Hd by (rewrite Hv; by left).
  apply list_elem_of_filter in Hd as [Hc Hd]. by destruct (Hnone d Hd).
Qed.

Lemma update_unknown_config_witness :
  run (update_config "nope" JNull None None) (exec_all sample_history fresh)
  = (Raise (ValueError "Configuration with config_id 'nope' not found"),
     exec_all sample_history fresh).
Proof.
  apply (update_unknown_config "nope" JNull None None
           (exec_all sample_history fresh)).
  - reflexivity.
  - intros d Hd. vm_compute in Hd. apply list_elem_of_In in Hd.
    simpl in Hd. destruct Hd as [<-|[<-|[<-|[]]]]; done.
Defined.

(** X9. [create_config] given a dict that lacks a required key raises
    RuntimeError naming the first missing key, in the order config_id,
    app_name, environment, settings, whatever the state of the server, and
    leaves the world as it is. *)
Theorem create_config_missing_key cd u n w :
  cd_config_id cd = None \/ cd_app_name cd = None
  \/ cd_environment cd = None \/ cd_settings cd = None ->
  exists field,
    run (create_config cd u n) w
    = (Raise (RuntimeError ("Failed to create configuration: "
                              +:+ "Missing required field: " +:+ field)), w)
    /\ match field with
       | "config_id" => cd_config_id cd = None
       | "app_name" => is_Some (cd_config_id cd) /\ cd_app_name cd = None
       | "environment" =>
           is_Some (cd_config_id cd) /\ is_Some (cd_app_name cd)
           /\ cd_environment cd = None
       | "settings" =>
           is_Some (cd_config_id cd) /\ is_Some (cd_app_name cd)
           /\ is_Some (cd_environment cd) /\ cd_settings cd = None
       | _ => False
       end.
Proof.
  destruct cd as [[c|] [a|] [e|] [s|]]; simpl; intros Hmiss.
  all: try (exists "config_id"; by split).
  all: try (exists "app_name"; by split).
  all: try (exists "environment"; by split).
  all: try (exists "settings"; by split).
  destruct Hmiss as [?|[?|[?|?]]]; done.
Qed.

Lemma create_config_missing_key_witness :
  exists field,
    run (create_config (mkConfigData (Some "c") None None (Some JNull))
           None None) fresh
    = (Raise (RuntimeError ("Failed to create configuration: "
                              +:+ "Missing required field: " +:+ field)),
       fresh)
    /\ match field with
       | "config_id" => Some "c" = @None string
       | "app_name" => is_Some (Some "c") /\ @None string = None
       | "environment" =>
           is_Some (Some "c") /\ is_Some (@None string)
           /\ @None string = None
       | "settings" =>
           is_Some (Some "c") /\ is_Some (@None string)
           /\ is_Some (@None string) /\ Some JNull = None
       | _ => False
       end.
Proof.
  apply (create_config_missing_key
           (mkConfigData (Some "c") None None (Some JNull)) None None fresh).
  right. left. reflexivity.
Defined.

(** ** Metrics *)

Lemma foldl_insert_other {V} (f : list Document -> V)
    (rows : list (string * list Document)) :
  forall (acc : gmap string V) k,
    k ∉ rows.*1 ->
    foldl (fun acc row => <[fst row := f (snd row)]> acc) acc rows !! k
    = acc !! k.
Proof.
  induction rows as [|r rows IH]; intros acc k Hk; [done|]. simpl.
  rewrite IH by (intros ?; apply Hk; by right).
  apply lookup_insert_ne. intros Hr. apply Hk. rewrite <- Hr. by left.
Qed.

Lemma foldl_insert_row {V} (f : list Document -> V)
    (rows : list (string * list Document)) :
  forall (acc : gmap string V) k ms,
    NoDup rows.*1 -> (k, ms) ∈ rows ->
    foldl (fun acc row => <[fst row := f (snd row)]> acc) acc rows !! k
    = Some (f ms).
Proof.
  induction rows as [|r rows IH]; intros acc k ms Hnd Hin;
    [by apply not_elem_of_nil in Hin|].
  csimpl in Hnd. apply NoDup_cons in Hnd as [Hr Hnd]. simpl.
  apply elem_of_cons in Hin as [<-|Hin].
  - rewrite foldl_insert_other by done. apply lookup_insert_eq.
  - by apply IH.
Qed.

Lemma group_rows_keys {K} `{EqDecision K} (key : Document -> K) l :
  (group_rows key l).*1 = remove_dups (key <$> l).
Proof.
  unfold group_rows. rewrite <- list_fmap_compose.
  apply list_fmap_id.
Qed.

Lemma group_rows_config_id cid l :
  versions_of cid l <> [] ->
  (cid, versions_of cid l) ∈ group_rows config_id l.
Proof.
  intros Hne. unfold group_rows. apply list_elem_of_fmap.
  exists cid. split; [done|]. apply elem_of_remove_dups.
  destruct (versions_of cid l) as [|d vs] eqn:Hv; [done|].
  assert (d ∈ versions_of cid l) as Hd by (rewrite Hv; by left).
  apply list_elem_of_filter in Hd as [<- Hd]. by apply list_elem_of_fmap_2.
Qed.

Lemma group_rows_config_id_absent cid l :
  versions_of cid l = [] -> cid ∉ (group_rows config_id l).*1.
Proof.
  intros Hnil. rewrite group_rows_keys, elem_of_remove_dups.
  intros (d & -> & Hd)%list_elem_of_fmap.
  assert (d ∈ versions_of (config_id d) l) as Hin
    by (by apply list_elem_of_filter).
  rewrite Hnil in Hin. by apply not_elem_of_nil in Hin.
Qed.

(** X10. After any history of requests started on an empty collection, with
    the server reachable, the two per-configuration dicts of
    [get_metrics_data] coincide: each configuration with a stored version is
    listed with the number of its stored versions, which is also its latest
    version; a configuration with none is in neither dict. *)
Theorem metrics_count_is_latest evs oid o t drv :
  let w := exec_all evs (empty_world oid o t drv) in
  outage w = None ->
  latest_versions (get_metrics_data w) = versions_per_config (get_metrics_data w)
  /\ forall cid,
       versions_per_config (get_metrics_data w) !! cid
       = match versions_of cid (docs w) with
         | [] => None
         | vs => Some (Z.of_nat (length vs))
         end.
Proof.
  intros w Ho.
  destruct (exec_all_keeps_shape evs (empty_world oid o t drv)
              gapless_nil identity_fixed_nil) as [Hg _]. fold w in Hg.
  unfold get_metrics_data. rewrite Ho. cbn [latest_versions versions_per_config].
  assert (NoDup (group_rows config_id (docs w)).*1) as Hnd
    by (rewrite group_rows_keys; apply NoDup_remove_dups).
  assert (forall cid,
    foldl (fun acc row => <[fst row := sum_1 (snd row)]> acc)
          (∅ : gmap string Z) (group_rows config_id (docs w)) !! cid
    = match versions_of cid (docs w) with
      | [] => None
      | vs => Some (Z.of_nat (length vs))
      end) as Hcount.
  { intros cid. destruct (versions_of cid (docs w)) as [|d vs] eqn:Hv.
    - rewrite foldl_insert_other; [done|].
      by apply group_rows_config_id_absent.
    - rewrite (foldl_insert_row sum_1 _ _ cid (versions_of cid (docs w)));
        [by rewrite Hv|done|].
      apply group_rows_config_id. by rewrite Hv. }
  split; [|done]. apply map_eq. intros cid. rewrite Hcount.
  destruct (versions_of cid (docs w)) as [|d vs] eqn:Hv.
  - rewrite foldl_insert_other; [done|].
    by apply group_rows_config_id_absent.
  - rewrite (foldl_insert_row max_of_version _ _ cid
               (versions_of cid (docs w)));
      [|done|apply group_rows_config_id; by rewrite Hv].
    f_equal. unfold max_of_version.
    destruct (max_version (versions_of cid (docs w))) as [m|] eqn:Hm.
    + rewrite <- latest_match_by_config_id in Hm. cbn [from_option].
      rewrite (gapless_latest _ _ _ Hg Hm). by rewrite Hv.
    + apply max_version_None in Hm. by rewrite Hm in Hv.
Qed.

Lemma metrics_count_is_latest_witness :
  latest_versions (get_metrics_data (exec_all sample_history fresh))
  = versions_per_config (get_metrics_data (exec_all sample_history fresh))
  /\ forall cid,
       versions_per_config (get_metrics_data (exec_all sample_history fresh))
         !! cid
       = match versions_of cid (docs (exec_all sample_history fresh)) with
         | [] => None
         | vs => Some (Z.of_nat (length vs))
         end.
Proof.
  apply (metrics_count_is_latest sample_history 0%nat None
           "2024-05-01T10:00:00" bson_refusal).
  reflexivity.
Defined.

Example metrics_sample :
  map_to_list (configs_by_app_env
                 (get_metrics_data (exec_all sample_history fresh)))
  = [("X|dev", 3)]
  /\ map_to_list (latest_versions
                    (get_metrics_data (exec_all sample_history fresh)))
     = [("cfg1", 3)].
Proof. vm_compute. done. Qed.

(** * Further properties of webhook delivery *)

(** ** How many requests a delivery makes *)

Lemma attempt_by_verdict event cfg net :
  match verdict (endpoint net (url cfg) (posted net)) with
  | Accepted =>
      exists result,
        dispatch_with_retry_attempt event cfg net = (Ret result, after_post net)
        /\ success result = true
  | Rejected =>
      exists result,
        dispatch_with_retry_attempt event cfg net = (Ret result, after_post net)
        /\ success result = false
  | Transient =>
      exists msg,
        dispatch_with_retry_attempt event cfg net
        = (Raise (RequestsConnectionError msg), after_post net)
  end.
Proof.
  unfold verdict.
  destruct (endpoint net (url cfg) (posted net)) as [code text|err] eqn:Hr.
  - destruct ((200 <=? code) && (code <? 300)) eqn:H2.
    + apply attempt_accepted. rewrite Hr. simpl. lia.
    + destruct (500 <=? code) eqn:H5.
      * apply attempt_transient. rewrite Hr. simpl. lia.
      * apply attempt_rejected. rewrite Hr. simpl. lia.
  - apply attempt_transient. by rewrite Hr.
Qed.

(** The retry loop, told by the verdicts of the replies. *)
Lemma dispatch_with_retry_by_verdict event cfg net :
  let u := url cfg in
  let k := requests_made net u in
  snd (dispatch_with_retry event cfg net)
  = mkNet (endpoint net) (posted net + k) (slept net ++ take (k - 1) [1; 2])
  /\ match fst (dispatch_with_retry event cfg net) with
     | Ret result =>
         success result = true
         <-> verdict (endpoint net u (posted net + k - 1)) = Accepted
     | Raise e =>
         k = 3%nat
         /\ verdict (endpoint net u (posted net + 2)) = Transient
         /\ exists m, e = RetryError m
     end.
Proof.
  intros u k. unfold k, requests_made, dispatch_with_retry.
  cbn [retry_call].
  pose proof (attempt_by_verdict event cfg net) as H0. fold u in H0.
  destruct (verdict (endpoint net u (posted net))) eqn:V0;
    cbv beta iota in H0.
  1,2: destruct H0 as (result & Hatt & Hs); rewrite Hatt; cbn [fst snd];
       replace (posted net + 1 - 1)%nat with (posted net) by lia;
       rewrite V0, Hs; split;
       [ by rewrite app_nil_r, Nat.add_1_r | done ].
  destruct H0 as (m0 & ->). cbn [retry_if_exception_type].
  change (stop_after_attempt 3 1) with false.
  change (wait_exponential 1 1 60 1) with 1. cbv iota.
  set (net1 := sleep 1 (after_post net)).
  pose proof (attempt_by_verdict event cfg net1) as H1. fold u in H1.
  change (posted net1) with (S (posted net)) in H1.
  change (endpoint net1) with (endpoint net) in H1.
  destruct (verdict (endpoint net u (S (posted net)))) eqn:V1;
    cbv beta iota in H1.
  1,2: destruct H1 as (result & Hatt & Hs); rewrite Hatt; cbn [fst snd];
       replace (posted net + 2 - 1)%nat with (S (posted net)) by lia;
       rewrite V1, Hs; split;
       [ unfold net1, sleep, after_post; simpl; f_equal; lia | done ].
  destruct H1 as (m1 & ->). cbn [retry_if_exception_type].
  change (stop_after_attempt 3 (1 + 1)) with false.
  change (wait_exponential 1 1 60 (1 + 1)) with 2. cbv iota.
  set (net2 := sleep 2 (after_post net1)).
  pose proof (attempt_by_verdict event cfg net2) as H2. fold u in H2.
  change (posted net2) with (S (S (posted net))) in H2.
  change (endpoint net2) with (endpoint net) in H2.
  replace (posted net + 3 - 1)%nat with (S (S (posted net))) by lia.
  replace (posted net + 2)%nat with (S (S (posted net))) by lia.
  assert (after_post net2
          = mkNet (endpoint net) (posted net + 3)
                  (slept net ++ take (3 - 1) [1; 2])) as snd_net.
  { unfold net2, net1, sleep, after_post; simpl.
    f_equal; [lia|]. by rewrite <- app_assoc. }
  destruct (verdict (endpoint net u (S (S (posted net))))) eqn:V2;
    cbv beta iota in H2.
  1,2: destruct H2 as (result & Hatt & Hs); rewrite Hatt; cbn [fst snd];
       rewrite Hs; split; [exact snd_net|done].
  destruct H2 as (m2 & ->). cbn [retry_if_exception_type].
  change (stop_after_attempt 3 (1 + 1 + 1)) with true. cbv iota.
  cbn [fst snd]. split; [exact snd_net|]. repeat split. by eexists.
Qed.

Lemma requests_made_bounds net u : (1 <= requests_made net u <= 3)%nat.
Proof. unfold requests_made. repeat case_match; lia. Qed.

(** Where the count of requests stops: every reply before the last is
    transient, and a delivery that stops short of three requests stops at a
    reply that is not. *)
Lemma requests_made_stops net u :
  let k := requests_made net u in
  (forall i, (i < k - 1)%nat ->
             verdict (endpoint net u (posted net + i)) = Transient)
  /\ ((k < 3)%nat ->
      verdict (endpoint net u (posted net + k - 1)) <> Transient).
Proof.
  unfold requests_made.
  destruct (verdict (endpoint net u (posted net))) eqn:V0; cbn zeta.
  1,2: split; [intros i Hi; lia|intros _];
       replace (posted net + 1 - 1)%nat with (posted net) by lia;
       by rewrite V0.
  destruct (verdict (endpoint net u (S (posted net)))) eqn:V1.
  1,2: split;
       [ intros i Hi; assert (i = 0%nat) as -> by lia;
         by rewrite Nat.add_0_r
       | intros _;
         replace (posted net + 2 - 1)%nat with (S (posted net)) by lia;
         by rewrite V1 ].
  split; [|lia]. intros i Hi.
  assert (i = 0 \/ i = 1)%nat as [-> | ->] by lia.
  - by rewrite Nat.add_0_r.
  - by rewrite Nat.add_1_r.
Qed.

(** How the retry loop ends, told by the verdict of the last reply. *)
Lemma dispatch_with_retry_outcome event cfg net :
  let u := url cfg in
  let k := requests_made net u in
  match verdict (endpoint net u (posted net + k - 1)) with
  | Accepted =>
      exists result,
        fst (dispatch_with_retry event cfg net) = Ret result
        /\ success result = true
  | Rejected =>
      exists result,
        fst (dispatch_with_retry event cfg net) = Ret result
        /\ success result = false
  | Transient =>
      exists m, fst (dispatch_with_retry event cfg net) = Raise (RetryError m)
  end.
Proof.
  intros u k. unfold k, requests_made, dispatch_with_retry.
  cbn [retry_call].
  pose proof (attempt_by_verdict event cfg net) as H0. fold u in H0.
  destruct (verdict (endpoint net u (posted net))) eqn:V0;
    cbv beta iota in H0.
  1,2: destruct H0 as (result & Hatt & Hs); rewrite Hatt; cbn [fst snd];
       replace (posted net + 1 - 1)%nat with (posted net) by lia;
       rewrite V0; by exists result.
  destruct H0 as (m0 & ->). cbn [retry_if_exception_type].
  change (stop_after_attempt 3 1) with false.
  change (wait_exponential 1 1 60 1) with 1. cbv iota.
  set (net1 := sleep 1 (after_post net)).
  pose proof (attempt_by_verdict event cfg net1) as H1. fold u in H1.
  change (posted net1) with (S (posted net)) in H1.
  change (endpoint net1) with (endpoint net) in H1.
  destruct (verdict (endpoint net u (S (posted net)))) eqn:V1;
    cbv beta iota in H1.
  1,2: destruct H1 as (result & Hatt & Hs); rewrite Hatt; cbn [fst snd];
       replace (posted net + 2 - 1)%nat with (S (posted net)) by lia;
       rewrite V1; by exists result.
  destruct H1 as (m1 & ->). cbn [retry_if_exception_type].
  change (stop_after_attempt 3 (1 + 1)) with false.
  change (wait_exponential 1 1 60 (1 + 1)) with 2. cbv iota.
  set (net2 := sleep 2 (after_post net1)).
  pose proof (attempt_by_verdict event cfg net2) as H2. fold u in H2.
  change (posted net2) with (S (S (posted net))) in H2.
  change (endpoint net2) with (endpoint net) in H2.
  replace (posted net + 3 - 1)%nat with (S (S (posted net))) by lia.
  destruct (verdict (endpoint net u (S (S (posted net))))) eqn:V2;
    cbv beta iota in H2.
  1,2: destruct H2 as (result & Hatt & Hs); rewrite Hatt; cbn [fst snd];
       by exists result.
  destruct H2 as (m2 & ->). cbn [retry_if_exception_type].
  change (stop_after_attempt 3 (1 + 1 + 1)) with true. cbv iota.
  cbn [fst snd]. by eexists.
Qed.

(** X11. One delivery, whatever the remote does: it makes at least one and
    at most three requests, every reply before the last being a missing
    reply or a 5xx, and it stops before the third only at a reply that is
    not; it waits 1 second before the second request and 2 before the
    third. If the last reply is a 2xx it returns a result with [success]
    true; if it is some other status below 500 it returns a result with
    [success] false; if it is again a missing reply or a 5xx, which is then
    the third, it raises RetryError. *)
Theorem delivery_schedule event cfg net :
  let u := url cfg in
  let k := requests_made net u in
  (1 <= k <= 3)%nat
  /\ (forall i, (i < k - 1)%nat ->
                verdict (endpoint net u (posted net + i)) = Transient)
  /\ ((k < 3)%nat ->
      verdict (endpoint net u (posted net + k - 1)) <> Transient)
  /\ snd (dispatch_with_retry event cfg net)
     = mkNet (endpoint net) (posted net + k) (slept net ++ take (k - 1) [1; 2])
  /\ match verdict (endpoint net u (posted net + k - 1)) with
     | Accepted =>
         exists result,
           fst (dispatch_with_retry event cfg net) = Ret result
           /\ success result = true
     | Rejected =>
         exists result,
           fst (dispatch_with_retry event cfg net) = Ret result
           /\ success result = false
     | Transient =>
         exists m,
           fst (dispatch_with_retry event cfg net) = Raise (RetryError m)
     end.
Proof.
  intros u k. split; [apply requests_made_bounds|].
  destruct (requests_made_stops net u) as [Hbefore Hshort].
  split; [exact Hbefore|]. split; [exact Hshort|].
  split; [apply dispatch_with_retry_by_verdict|].
  apply dispatch_with_retry_outcome.
Qed.

(** ** Which subscribers an event reaches *)

Lemma setdefault_lookup u u' (st : gmap string Counters) :
  is_Some (setdefault u st !! u)
  /\ (u' <> u -> setdefault u st !! u' = st !! u')
  /\ (is_Some (st !! u') -> is_Some (setdefault u st !! u')).
Proof.
  unfold setdefault. destruct (st !! u) as [c|] eqn:Hu.
  - rewrite Hu. by repeat split.
  - rewrite lookup_insert_eq. repeat split; [by eexists|..].
    + intros Hne. by rewrite lookup_insert_ne.
    + intros [c Hc]. destruct (decide (u = u')) as [->|Hne]; [congruence|].
      rewrite lookup_insert_ne by done. by eexists.
Qed.

Lemma _dispatch_effect event cfg m net :
  exists m',
    snd (fst (_dispatch event cfg (Some m) net)) = m'
    /\ snd (_dispatch event cfg (Some m) net)
       = snd (dispatch_with_retry event cfg net)
    /\ (forall m0, m' = Some m0 ->
          webhooks m0 = webhooks m
          /\ (forall u, u <> url cfg -> stats m0 !! u = stats m !! u)
          /\ (forall u, is_Some (stats m !! u) -> is_Some (stats m0 !! u)))
    /\ is_Some m'.
Proof.
  unfold _dispatch.
  destruct (dispatch_with_retry event cfg net) as [[result|e] net'].
  - eexists. split; [reflexivity|]. split; [done|]. split; [|by eexists].
    intros m0 [= <-]. cbn [webhooks stats]. split; [done|].
    destruct (success result).
    + split.
      * intros u Hu. by apply counted_elsewhere.
      * intros u Hu. destruct (decide (u = url cfg)) as [->|Hne].
        -- rewrite lookup_alter_eq.
           destruct (setdefault_lookup (url cfg) (url cfg) (stats m))
             as [[c ->] _]. by eexists.
        -- by rewrite counted_elsewhere.
    + split.
      * intros u Hu. by apply counted_elsewhere.
      * intros u Hu. destruct (decide (u = url cfg)) as [->|Hne].
        -- rewrite lookup_alter_eq.
           destruct (setdefault_lookup (url cfg) (url cfg) (stats m))
             as [[c ->] _]. by eexists.
        -- by rewrite counted_elsewhere.
  - eexists. split; [reflexivity|]. split; [done|]. split; [|by eexists].
    by intros m0 [= <-].
Qed.

Lemma dispatch_event_to_effect event subs :
  forall m net,
    let res := dispatch_event_to subs event m net in
    let reached := filter (fun c => listens event c = true) subs in
    webhooks (fst res) = webhooks m
    /\ endpoint (snd res) = endpoint net
    /\ (posted net + length reached <= posted (snd res)
        <= posted net + 3 * length reached)%nat
    /\ (forall u, u ∉ url <$> reached -> stats (fst res) !! u = stats m !! u)
    /\ (forall u, is_Some (stats m !! u) -> is_Some (stats (fst res) !! u))
    /\ (forall c, c ∈ reached -> is_Some (stats (fst res) !! url c)).
Proof.
  induction subs as [|c subs IH]; intros m net; cbn zeta.
  { cbn. repeat split; try lia; try done.
    intros c Hc. by apply not_elem_of_nil in Hc. }
  cbn [dispatch_event_to]. fold (listens event c).
  destruct (listens event c) eqn:Hl.
  2:{ rewrite filter_cons_False by (by rewrite Hl). apply IH. }
  rewrite filter_cons_True by done.
  destruct (_dispatch_effect event c m net) as (m' & Hm' & Hnet & Hkeep & [m0 ->]).
  destruct (_dispatch event c (Some m) net) as [[r mo] net'] eqn:Hd.
  cbn [fst snd] in Hm', Hnet. subst mo. cbn [default from_option].
  unfold id.
  destruct (Hkeep m0 eq_refl) as (Hw & Hother & Hmono).
  pose proof (dispatch_with_retry_by_verdict event c net) as [Hsnd _].
  cbn zeta in Hsnd. rewrite <- Hnet in Hsnd.
  pose proof (requests_made_bounds net (url c)) as Hk.
  set (m1 := mkWebhookManager (webhooks m0) (setdefault (url c) (stats m0))).
  destruct (IH m1 net') as (H1 & H2 & H3 & H4 & H5 & H6).
  destruct (setdefault_lookup (url c) (url c) (stats m0)) as (Hhere & _ & _).
  split; [by rewrite H1|]. split; [by rewrite H2, Hsnd|].
  split.
  { assert (posted net' = (posted net + requests_made net (url c))%nat)
      as Hp by (by rewrite Hsnd).
    cbn [length]. lia. }
  split; [|split].
  - intros u Hu. rewrite fmap_cons, not_elem_of_cons in Hu.
    destruct Hu as [Hne Hu]. rewrite (H4 u Hu). cbn [m1 stats].
    destruct (setdefault_lookup (url c) u (stats m0)) as (_ & Hs & _).
    unfold m1; cbn [stats]. rewrite Hs by done. by apply Hother.
  - intros u Hu. apply H5. unfold m1; cbn [stats].
    destruct (setdefault_lookup (url c) u (stats m0)) as (_ & _ & Hs).
    by apply Hs, Hmono.
  - intros c' [->|Hc']%elem_of_cons; [by apply H5|by apply H6].
Qed.



Example test_event_reaches_nobody :
  dispatch_event
    (mkWebhookEvent "config.test" "evt-2" "2024-05-01T10:00:00Z"
       "test-config" 1 None (Some "test-app") (Some "test") (Some "admin")
       (Some "Test webhook event") (Some (JObj [("test", JBool true)])))
    manager0 always_503
  = (manager0, always_503).
Proof. vm_compute. reflexivity. Qed.

Lemma rejection_counted_once_witness :
  exists m',
    _dispatch sample_event hook (Some manager0) always_400
    = (Ret tt, Some m', after_post always_400)
    /\ successes (counters m' (url hook))
       = successes (counters manager0 (url hook))
    /\ failures (counters m' (url hook))
       = failures (counters manager0 (url hook)) + 1.
Proof.
  apply (rejection_counted_once sample_event hook manager0 always_400).
  simpl. lia.
Defined.

(** ** Registering and unregistering *)

(** X14. Once a URL is unregistered no subscriber with that URL is left,
    the other subscribers stay, in order, the counters recorded so far are
    kept, and no later [dispatch_event] moves the counters of that URL. *)
Theorem unregistered_url_is_silent m u event net :
  let m' := unregister_webhook m u in
  (forall c, c ∈ webhooks m' <-> c ∈ webhooks m /\ url c <> u)
  /\ webhooks m' `sublist_of` webhooks m
  /\ stats m' = stats m
  /\ stats (fst (dispatch_event event m' net)) !! u = stats m !! u.
Proof.
  intros m'. split; [|split; [|split]].
  - intros c. unfold m', unregister_webhook; cbn [webhooks].
    rewrite list_elem_of_filter. tauto.
  - apply sublist_filter.
  - done.
  - destruct (dispatch_event_to_effect event (webhooks m') m' net)
      as (_ & _ & _ & H4 & _). unfold dispatch_event. rewrite H4; [done|].
    intros (c & Hu & Hc)%list_elem_of_fmap.
    apply list_elem_of_filter in Hc as [_ Hc].
    unfold m', unregister_webhook in Hc; cbn [webhooks] in Hc.
    apply list_elem_of_filter in Hc as [Hne _]. by apply Hne.
Qed.

(** X15. Registering a subscriber whose URL is not yet registered and then
    unregistering that URL gives back the manager as it was. *)
Theorem register_then_unregister m cfg :
  (forall c, c ∈ webhooks m -> url c <> url cfg) ->
  unregister_webhook (register_webhook m cfg) (url cfg) = m.
Proof.
  intros Hfresh. destruct m as [ws st].
  unfold unregister_webhook, register_webhook; cbn in *. f_equal.
  rewrite filter_app, filter_singleton by exact [].
  rewrite decide_False by (by intros Hn; apply Hn).
  rewrite app_nil_r. induction ws as [|w ws IH]; [done|].
  rewrite filter_cons_True by (apply Hfresh; by left).
  f_equal. apply IH. intros c Hc. apply Hfresh. by right.
Qed.

Lemma register_then_unregister_witness :
  unregister_webhook
    (register_webhook manager0 (webhook_config "https://hooks.example/b"))
    "https://hooks.example/b"
  = manager0.
Proof.
  apply (register_then_unregister manager0
           (webhook_config "https://hooks.example/b")).
  intros c Hc. apply list_elem_of_singleton in Hc as ->. done.
Defined.

(** ** What the notifications say *)

(** X16. The notification the API sends for an update, built from the
    latest version read just before and the version [update_config]
    returned: it is a config.updated event for that configuration, its
    version is its previous_version plus one, and it carries the new
    settings and the configuration's fixed app_name and environment. *)
Theorem update_notification cid st u n w old new w' event_id ts :
  run (get_latest_config cid) w = (Ret (Some old), w) ->
  run (update_config cid st u n) w = (Ret new, w') ->
  let ev := updated_event old new event_id ts in
  event_type ev = "config.updated"
  /\ ev_config_id ev = cid
  /\ ev_previous_version ev = Some (version old)
  /\ ev_version ev = version old + 1
  /\ ev_settings ev = Some st
  /\ ev_app_name ev = Some (app_name old)
  /\ ev_environment ev = Some (environment old).
Proof.
  intros Hold Hnew ev.
  destruct (update_config_cases cid st u n w)
    as [[e He]|(latest & Ho & Hl & Hrun)]; [congruence|].
  rewrite get_latest_config_run in Hold by done.
  injection Hold as Hold. rewrite Hl in Hold. injection Hold as ->.
  rewrite Hrun in Hnew. injection Hnew as <- _. done.
Qed.

Lemma update_notification_witness :
  let ev := updated_event cfg1_v3
              (mkDocument (Some 3%nat) "cfg1" 4 "X" "dev" JNull
                 "2024-05-01T10:00:00" "2024-05-01T12:00:00" None
                 "Configuration updated") "evt" "ts" in
  event_type ev = "config.updated"
  /\ ev_config_id ev = "cfg1"
  /\ ev_previous_version ev = Some (version cfg1_v3)
  /\ ev_version ev = version cfg1_v3 + 1
  /\ ev_settings ev = Some JNull
  /\ ev_app_name ev = Some (app_name cfg1_v3)
  /\ ev_environment ev = Some (environment cfg1_v3).
Proof.
  apply (update_notification "cfg1" JNull None None
           (exec_all sample_history fresh) cfg1_v3 _
           (appended (exec_all sample_history fresh)
              (mkDocument (Some 3%nat) "cfg1" 4 "X" "dev" JNull
                 "2024-05-01T10:00:00" "2024-05-01T12:00:00" None
                 "Configuration updated")) "evt" "ts").
  - vm_compute. reflexivity.
  - vm_compute. reflexivity.
Defined.

(** X17. The notification sent for a rollback names the target version as
    its previous_version, not the version that was latest: its own version
    is strictly greater, and its settings are those of the stored target
    version. *)
Theorem rollback_notification cid k u n w new w' event_id ts :
  run (rollback_config cid k u n) w = (Ret new, w') ->
  let ev := rolled_back_event new k event_id ts in
  event_type ev = "config.rolled_back"
  /\ ev_config_id ev = cid
  /\ ev_previous_version ev = Some k
  /\ k < ev_version ev
  /\ exists target,
       first_match (by_config_id_version cid k) (docs w) = Some target
       /\ ev_settings ev = Some (settings target).
Proof.
  intros Hnew ev.
  destruct (rollback_config_cases cid k u n w)
    as [[e He]|(target & latest & Ho & Ht & Hl & Hrun)]; [congruence|].
  rewrite Hrun in Hnew. injection Hnew as <- _.
  repeat split; [|by exists target]. cbn.
  apply first_match_Some in Ht as [Hin Hm].
  apply matches_by_config_id_version in Hm as [Hc Hv].
  apply latest_match_Some in Hl as (_ & _ & Hmax).
  specialize (Hmax target Hin Hc). lia.
Qed.

Lemma rollback_notification_witness :
  let ev := rolled_back_event
              (mkDocument (Some 3%nat) "cfg1" 4 "X" "dev"
                 (JObj [("a", JNum 2)])
                 "2024-05-01T10:00:00" "2024-05-01T12:00:00" None
                 "Rolled back to version 2") 2 "evt" "ts" in
  event_type ev = "config.rolled_back"
  /\ ev_config_id ev = "cfg1"
  /\ ev_previous_version ev = Some 2
  /\ 2 < ev_version ev
  /\ exists target,
       first_match (by_config_id_version "cfg1" 2)
         (docs (exec_all sample_history fresh)) = Some target
       /\ ev_settings ev = Some (settings target).
Proof.
  apply (rollback_notification "cfg1" 2 None None
           (exec_all sample_history fresh) _
           (appended (exec_all sample_history fresh)
              (mkDocument (Some 3%nat) "cfg1" 4 "X" "dev"
                 (JObj [("a", JNum 2)])
                 "2024-05-01T10:00:00" "2024-05-01T12:00:00" None
                 "Rolled back to version 2")) "evt" "ts").
  vm_compute. reflexivity.
Defined.

(** ** Signatures *)

Lemma hex_digit_ascii (a : Ascii.ascii) :
  (Ascii.N_of_ascii (hex_digit (Ascii.N_of_ascii a / 16)) <? 128)%N = true
  /\ (Ascii.N_of_ascii (hex_digit (Ascii.N_of_ascii a mod 16)) <? 128)%N
     = true.
Proof. destruct a as [[] [] [] [] [] [] [] []]; vm_compute; done. Qed.

Lemma hexdigest_ascii digest : is_ascii (hexdigest digest) = true.
Proof.
  induction digest as [|a rest IH]; [done|]. simpl.
  destruct (hex_digit_ascii a) as [-> ->]. by rewrite IH.
Qed.

Lemma is_ascii_app s1 s2 :
  is_ascii (s1 +:+ s2) = is_ascii s1 && is_ascii s2.
Proof.
  induction s1 as [|a s1 IH]; [done|]. simpl.
  by rewrite IH, andb_assoc.
Qed.

(** X18. [verify_signature] on a signature that is not plain ASCII raises
    TypeError; on an ASCII one it says whether the signature is, character
    for character, "sha256=" followed by the hexadecimal HMAC of the payload
    under the secret. In particular what [generate_signature] produces
    verifies. *)
Theorem verify_signature_exact hmac_sha256 payload signature secret :
  verify_signature hmac_sha256 payload signature secret
  = (if is_ascii signature
     then Compared
            (bool_decide
               (signature = generate_signature hmac_sha256 payload secret))
     else CompareTypeError)
  /\ verify_signature hmac_sha256 payload
       (generate_signature hmac_sha256 payload secret) secret
     = Compared true.
Proof.
  assert (is_ascii (generate_signature hmac_sha256 payload secret) = true)
    as Hexp.
  { unfold generate_signature. rewrite is_ascii_app, hexdigest_ascii. done. }
  unfold verify_signature, compare_digest. rewrite Hexp. split.
  - destruct (is_ascii signature); [|done]. cbn [andb]. f_equal.
    destruct (String.eqb_spec
                (generate_signature hmac_sha256 payload secret) signature)
      as [Heq|Hne]; symmetry.
    + by apply bool_decide_eq_true_2.
    + apply bool_decide_eq_false_2. congruence.
  - cbn [andb]. by rewrite String.eqb_refl.
Qed.

(** * Properties of the user store *)

Lemma find_user_None p l :
  find_user p l = None <-> forall u, u ∈ l -> p u = false.
Proof.
  unfold find_user. rewrite head_None. split.
  - intros Hnil u Hu. apply not_true_iff_false. intros Hp.
    assert (u ∈ filter (fun u => p u = true) l) as Hin
      by (by apply list_elem_of_filter).
    rewrite Hnil in Hin. by apply not_elem_of_nil in Hin.
  - intros Hall. induction l as [|a l IH]; [done|].
    rewrite filter_cons_False.
    + apply IH. intros u Hu. apply Hall. by right.
    + rewrite (Hall a); [done|]. by left.
Qed.

Lemma find_user_Some p l u :
  find_user p l = Some u -> u ∈ l /\ p u = true.
Proof.
  unfold find_user. intros Hh%head_Some_elem_of.
  by apply list_elem_of_filter in Hh as [? ?].
Qed.

Lemma find_user_snoc p l x :
  find_user p l = None -> p x = true -> find_user p (l ++ [x]) = Some x.
Proof.
  unfold find_user. rewrite head_None. intros Hnil Hp.
  rewrite filter_app, Hnil. simpl. by rewrite filter_cons_True, filter_nil.
Qed.

Lemma existsb_false {A} (f : A -> bool) (l : list A) :
  existsb f l = false <-> forall x, x ∈ l -> f x = false.
Proof.
  rewrite <- not_true_iff_false, existsb_exists. split.
  - intros Hn x Hx. apply not_true_iff_false. intros Hf. apply Hn.
    exists x. by rewrite <- list_elem_of_In.
  - intros Hall (x & Hx & Hf). rewrite <- list_elem_of_In in Hx.
    rewrite (Hall x Hx) in Hf. done.
Qed.

(** What a successful [create_user] found and did. *)
Lemma create_user_Ret n h r k t now s u s' :
  create_user n h r k t now s = (Ret u, s') ->
  let stored := mkUser (Some (IdObject (next_user_id s))) n (Some h) r
                       (default t k) now now true in
  r ∈ valid_roles /\ users_outage s = None
  /\ (forall x, x ∈ users s -> username x <> n /\ api_key x <> default t k)
  /\ u = without_hash stored
  /\ s' = mkUserStore (users s ++ [stored]) (S (next_user_id s)) None.
Proof.
  unfold create_user. case_bool_decide as Hr; [|done]. cbn [negb].
  destruct (users_outage s) as [m|] eqn:Ho; [done|].
  destruct (find_user (has_username n) (users s)); [done|].
  destruct (existsb _ (users s)) eqn:Hex; [done|].
  intros [= <- <-]. cbn zeta. repeat split; try done.
  - rewrite existsb_false in Hex. specialize (Hex x H).
    apply orb_false_iff in Hex as [Hu _]. unfold has_username in Hu.
    by apply String.eqb_neq in Hu.
  - rewrite existsb_false in Hex. specialize (Hex x H).
    apply orb_false_iff in Hex as [_ Hk]. unfold has_api_key in Hk.
    by apply String.eqb_neq in Hk.
Qed.

(** X19. A successful [create_user] returns the new user without its
    password hash and with the role asked for, one of viewer, editor and
    admin; its API key is the one given or else the fresh token. The user
    can then be fetched by name, password hash included, and by API key,
    password hash left out; what is fetched differs from what was returned
    only in that its [_id] is a string where the returned one is the
    ObjectId. *)
Theorem create_user_then_fetch n h r k t now s u s' :
  create_user n h r k t now s = (Ret u, s') ->
  password_hash u = None /\ username u = n /\ role u = r
  /\ r ∈ valid_roles /\ api_key u = default t k
  /\ user_id u = Some (IdObject (next_user_id s))
  /\ (exists fetched,
        get_user_by_username n s' = Some fetched
        /\ password_hash fetched = Some h
        /\ without_hash fetched = str_id u)
  /\ get_user_by_api_key (api_key u) s' = Some (str_id u).
Proof.
  intros (Hr & Ho & Hfree & -> & ->)%create_user_Ret.
  split; [reflexivity|]. split; [reflexivity|]. split; [reflexivity|].
  split; [exact Hr|]. split; [reflexivity|]. split; [reflexivity|]. split.
  - exists (str_id (mkUser (Some (IdObject (next_user_id s))) n (Some h) r
                      (default t k) now now true)).
    split; [|split; reflexivity].
    unfold get_user_by_username; cbn [users_outage users].
    rewrite (find_user_snoc _ _
               (mkUser (Some (IdObject (next_user_id s))) n (Some h) r
                       (default t k) now now true)); [done| |].
    + apply find_user_None. intros x Hx. destruct (Hfree x Hx) as [Hn _].
      apply andb_false_iff. left. by apply String.eqb_neq.
    + cbn. by rewrite String.eqb_refl.
  - unfold get_user_by_api_key; cbn [users_outage users api_key without_hash].
    rewrite (find_user_snoc _ _
               (mkUser (Some (IdObject (next_user_id s))) n (Some h) r
                       (default t k) now now true)); [done| |].
    + apply find_user_None. intros x Hx. destruct (Hfree x Hx) as [_ Hk].
      apply andb_false_iff. left. by apply String.eqb_neq.
    + cbn. by rewrite String.eqb_refl.
Qed.

Lemma create_user_then_fetch_witness :
  let s' := mkUserStore
              [mkUser (Some (IdObject 0%nat)) "ann" (Some "hash-a") "admin"
                      "key-a" "t1" "t1" true] 1 None in
  let u := mkUser (Some (IdObject 0%nat)) "ann" None "admin" "key-a" "t1" "t1"
                  true in
  password_hash u = None /\ username u = "ann" /\ role u = "admin"
  /\ "admin" ∈ valid_roles /\ api_key u = default "tok-1" (Some "key-a")
  /\ user_id u = Some (IdObject 0%nat)
  /\ (exists fetched,
        get_user_by_username "ann" s' = Some fetched
        /\ password_hash fetched = Some "hash-a"
        /\ without_hash fetched = str_id u)
  /\ get_user_by_api_key (api_key u) s' = Some (str_id u).
Proof.
  apply (create_user_then_fetch "ann" "hash-a" "admin" (Some "key-a")
           "tok-1" "t1" (no_users 0 None)).
  reflexivity.
Defined.

(** ** Updating and deleting in place *)

Lemma find_user_split p l u :
  find_user p l = Some u ->
  exists l1 l2, l = l1 ++ u :: l2 /\ (forall x, x ∈ l1 -> p x = false)
                /\ p u = true.
Proof.
  induction l as [|a l IH]; [done|]. unfold find_user.
  destruct (p a) eqn:Hp.
  - rewrite filter_cons_True by done. intros [= ->].
    exists [], l. split; [done|]. split; [|done].
    by intros x ?%not_elem_of_nil.
  - rewrite filter_cons_False by (by rewrite Hp). intros Hf.
    destruct (IH Hf) as (l1 & l2 & -> & Hl1 & Hu).
    exists (a :: l1), l2. split; [done|]. split; [|done].
    intros x [->|Hx]%elem_of_cons; auto.
Qed.

Lemma update_first_at p f l1 u l2 :
  (forall x, x ∈ l1 -> p x = false) -> p u = true ->
  update_first p f (l1 ++ u :: l2) = l1 ++ f u :: l2.
Proof.
  induction l1 as [|a l1 IH]; intros Hl1 Hu; simpl.
  - by rewrite Hu.
  - rewrite (Hl1 a) by (by left). f_equal. apply IH; [|done].
    intros x Hx. apply Hl1. by right.
Qed.

Lemma delete_first_at p l1 u l2 :
  (forall x, x ∈ l1 -> p x = false) -> p u = true ->
  delete_first p (l1 ++ u :: l2) = l1 ++ l2.
Proof.
  induction l1 as [|a l1 IH]; intros Hl1 Hu; simpl.
  - by rewrite Hu.
  - rewrite (Hl1 a) by (by left). f_equal. apply IH; [|done].
    intros x Hx. apply Hl1. by right.
Qed.

Lemma find_user_at p l1 u l2 :
  (forall x, x ∈ l1 -> p x = false) -> p u = true ->
  find_user p (l1 ++ u :: l2) = Some u.
Proof.
  intros Hl1 Hu. unfold find_user. rewrite filter_app.
  assert (filter (fun u => p u = true) l1 = []) as ->.
  { apply (proj1 (head_None _)). by apply find_user_None. }
  simpl. by rewrite filter_cons_True.
Qed.

Lemma find_user_skip p l1 u l2 :
  p u = false -> find_user p (l1 ++ u :: l2) = find_user p (l1 ++ l2).
Proof.
  intros Hu. unfold find_user. rewrite !filter_app.
  by rewrite filter_cons_False by (by rewrite Hu).
Qed.

Lemma NoDup_fmap_elem {A B} (g : A -> B) (l : list A) x y :
  NoDup (g <$> l) -> x ∈ l -> y ∈ l -> g x = g y -> x = y.
Proof.
  intros Hnd [i Hi]%list_elem_of_lookup [j Hj]%list_elem_of_lookup Hg.
  assert (i = j) as ->.
  { eapply NoDup_lookup; [exact Hnd| |].
    - by rewrite list_lookup_fmap, Hi.
    - by rewrite list_lookup_fmap, Hj, Hg. }
  congruence.
Qed.

(** ** What the user store keeps *)

Lemma users_ok_nil : users_ok [].
Proof. repeat split; constructor. Qed.

Lemma create_user_keeps n h r k t now s :
  users_ok (users s) -> users_ok (users (snd (create_user n h r k t now s))).
Proof.
  intros (Hn & Hk & Ha).
  destruct (create_user n h r k t now s) as [[u|e] s'] eqn:Hc.
  - apply create_user_Ret in Hc as (_ & _ & Hfree & _ & ->). cbn.
    unfold users_ok. rewrite !fmap_app, !NoDup_app. cbn.
    repeat split; try done.
    + intros x Hx ->%list_elem_of_singleton.
      apply list_elem_of_fmap in Hx as (y & Hy & Hin).
      destruct (Hfree y Hin) as [Hne _]. by rewrite Hy in Hne.
    + apply NoDup_singleton.
    + intros x Hx ->%list_elem_of_singleton.
      apply list_elem_of_fmap in Hx as (y & Hy & Hin).
      destruct (Hfree y Hin) as [_ Hne]. by rewrite Hy in Hne.
    + apply NoDup_singleton.
    + apply Forall_app. split; [done|]. by repeat constructor.
  - revert Hc. unfold create_user. repeat case_match; intros [= _ <-]; done.
Qed.

Lemma update_in_place_keeps name (f : User -> User) l :
  (forall u, username (f u) = username u /\ is_active (f u) = is_active u) ->
  (forall u, u ∈ l -> has_username name u = true ->
     api_key (f u) = api_key u
     \/ forall x, x ∈ l -> api_key x <> api_key (f u)) ->
  users_ok l -> users_ok (update_first (has_username name) f l).
Proof.
  intros Hf Hkey (Hn & Hk & Ha).
  destruct (find_user (has_username name) l) as [u|] eqn:Hfind.
  2:{ assert (update_first (has_username name) f l = l) as ->; [|done].
      rewrite find_user_None in Hfind. clear -Hfind.
      induction l as [|a l IH]; [done|]. simpl.
      rewrite (Hfind a) by (by left). f_equal. apply IH.
      intros x Hx. apply Hfind. by right. }
  destruct (find_user_split _ _ _ Hfind) as (l1 & l2 & -> & Hl1 & Hu).
  rewrite update_first_at by done.
  destruct (Hf u) as [Hfu Hfa]. unfold users_ok.
  rewrite !fmap_app, !fmap_cons in *. rewrite Hfu.
  split; [done|]. split.
  - assert (forall y, y ∈ l1 ++ l2 -> y ∈ l1 ++ u :: l2) as Hsub.
    { intros y [?|?]%elem_of_app; apply elem_of_app; [by left|].
      right. by right. }
    destruct (Hkey u) as [->|Hfresh];
      [apply elem_of_app; right; by left|done|done|].
    apply NoDup_app in Hk as (Hk1 & Hk12 & Hk2).
    apply NoDup_cons in Hk2 as [Hk2u Hk2].
    apply NoDup_app. split; [done|]. split.
    + intros x Hx [->|Hx2]%elem_of_cons.
      * apply list_elem_of_fmap in Hx as (y & Hy & Hin).
        apply (Hfresh y); [|done]. apply Hsub, elem_of_app. by left.
      * apply (Hk12 x Hx). by right.
    + apply NoDup_cons. split; [|done].
      intros (y & Hy & Hin)%list_elem_of_fmap.
      apply (Hfresh y); [|done]. apply Hsub, elem_of_app. by right.
  - apply Forall_app in Ha as [Ha1 Ha2].
    apply Forall_cons in Ha2 as [Hau Ha2].
    apply Forall_app. split; [done|]. apply Forall_cons.
    split; [congruence|done].
Qed.

Lemma update_user_password_keeps n h now s :
  users_ok (users s) ->
  users_ok (users (snd (update_user_password n h now s))).
Proof.
  intros Hok. unfold update_user_password.
  repeat case_match; try done. cbn.
  apply update_in_place_keeps; [done| |done]. intros v _ _. by left.
Qed.

Lemma regenerate_api_key_keeps n k now s :
  users_ok (users s) ->
  users_ok (users (snd (regenerate_api_key n k now s))).
Proof.
  intros Hok. unfold regenerate_api_key.
  destruct (users_outage s); [done|].
  destruct (find_user (has_username n) (users s)) as [u|] eqn:Hfind; [|done].
  destruct (String.eqb (api_key u) k && String.eqb (user_updated_at u) now);
    [done|].
  destruct (String.eqb_spec (api_key u) k) as [Hsame|Hdiff]; cbn [negb andb].
  - cbn. apply update_in_place_keeps; [done| |done].
    intros v Hv Hname. left. cbn.
    destruct Hok as (Hn & _ & _).
    apply find_user_Some in Hfind as [Hu Hnu].
    unfold has_username in *. apply String.eqb_eq in Hname, Hnu.
    assert (v = u) as -> by (apply (NoDup_fmap_elem username (users s));
                             [done..|congruence]).
    done.
  - destruct (existsb (has_api_key k) (users s)) eqn:Hex; [done|]. cbn.
    apply update_in_place_keeps; [done| |done].
    intros v Hv Hname. right. cbn. intros x Hx.
    rewrite existsb_false in Hex. specialize (Hex x Hx).
    unfold has_api_key in Hex. by apply String.eqb_neq in Hex.
Qed.

Lemma delete_first_sublist p l : delete_first p l `sublist_of` l.
Proof.
  induction l as [|a l IH]; [done|]. simpl. destruct (p a).
  - by apply sublist_cons.
  - by apply sublist_skip.
Qed.

Lemma delete_user_keeps n s :
  users_ok (users s) -> users_ok (users (snd (delete_user n s))).
Proof.
  intros (Hn & Hk & Ha). unfold delete_user.
  repeat case_match; try done. cbn.
  pose proof (delete_first_sublist (has_username n) (users s)) as Hsub.
  repeat split.
  - eapply sublist_NoDup; [exact Hn|]. by apply fmap_sublist.
  - eapply sublist_NoDup; [exact Hk|]. by apply fmap_sublist.
  - rewrite Forall_forall in Ha. apply Forall_forall. intros x Hx.
    apply Ha. by eapply elem_of_sublist.
Qed.

Lemma exec_users_keeps rs :
  forall s, users_ok (users s) -> users_ok (users (exec_users rs s)).
Proof.
  induction rs as [|r rs IH]; intros s Hok; [done|]. simpl. apply IH.
  destruct r; cbn [exec_user];
    auto using create_user_keeps, update_user_password_keeps,
               regenerate_api_key_keeps, delete_user_keeps.
Qed.

(** X20. After any history of user-management requests started on an
    empty user store, no two stored users share a username, no two share an
    API key, and every stored user is active. *)
Theorem user_store_unique rs uid o :
  let l := users (exec_users rs (no_users uid o)) in
  NoDup (username <$> l) /\ NoDup (api_key <$> l)
  /\ Forall (fun u => is_active u = true) l.
Proof. apply exec_users_keeps, users_ok_nil. Qed.

Lemma other_name_unmoved m (f : User -> User) l1 u l2 s s' :
  username u <> m -> username (f u) <> m ->
  users s = l1 ++ u :: l2 -> users s' = l1 ++ f u :: l2 ->
  users_outage s' = users_outage s ->
  get_user_by_username m s' = get_user_by_username m s.
Proof.
  intros Hu Hfu Hs Hs' Ho. unfold get_user_by_username.
  rewrite Ho, Hs, Hs'. destruct (users_outage s); [done|].
  rewrite !find_user_skip; [done|..]; unfold has_username;
    apply andb_false_intro1; by apply String.eqb_neq.
Qed.

Lemma get_user_by_username_at n s l1 u l2 :
  users_outage s = None -> users s = l1 ++ u :: l2 ->
  (forall x, x ∈ l1 -> has_username n x = false) ->
  has_username n u = true -> is_active u = true ->
  get_user_by_username n s = Some (str_id u).
Proof.
  intros Ho Hl Hl1 Hu Hact. unfold get_user_by_username. rewrite Ho, Hl.
  rewrite (find_user_at _ l1 u l2); [done| |by rewrite Hu, Hact].
  intros x Hx. by rewrite (Hl1 x Hx).
Qed.

(** X21. On a store whose usernames are unique and whose users are all
    active, a successful [update_user_password] returns the named user with
    the new password hash in it and the new modification time, everything
    else as it was; the user fetched by name afterwards is that same
    document, and the users of every other name are untouched. *)
Theorem password_update_takes_effect n h now s r s' :
  users_ok (users s) ->
  update_user_password n h now s = (Ret r, s') ->
  exists old,
    get_user_by_username n s = Some old
    /\ r = Some (set_password h now old)
    /\ password_hash (set_password h now old) = Some h
    /\ get_user_by_username n s' = r
    /\ (forall m, m <> n ->
          get_user_by_username m s' = get_user_by_username m s).
Proof.
  intros (Hn & Hk & Ha). unfold update_user_password.
  destruct (users_outage s) as [msg|] eqn:Ho; [done|].
  destruct (find_user (has_username n) (users s)) as [old|] eqn:Hfind;
    [|done].
  destruct (bool_decide _ && _); [done|]. cbn zeta. intros [= <- <-].
  destruct (find_user_split _ _ _ Hfind) as (l1 & l2 & Hl & Hl1 & Hold).
  assert (is_active old = true) as Hact.
  { rewrite Forall_forall in Ha. apply Ha. rewrite Hl.
    apply elem_of_app. right. by left. }
  assert (users (set_users s (update_first (has_username n)
                                (set_password h now) (users s)))
          = l1 ++ set_password h now old :: l2) as Hl'.
  { cbn. rewrite Hl. by apply update_first_at. }
  assert (get_user_by_username n
            (set_users s (update_first (has_username n) (set_password h now)
                            (users s)))
          = Some (set_password h now (str_id old))) as Hnew
    by (by apply (get_user_by_username_at n _ l1 (set_password h now old) l2)).
  exists (str_id old). split; [|split; [|split; [|split]]].
  - by apply (get_user_by_username_at n s l1 old l2).
  - exact Hnew.
  - done.
  - by rewrite Hnew.
  - intros m Hm. unfold has_username in Hold. apply String.eqb_eq in Hold.
    apply (other_name_unmoved m (set_password h now) l1 old l2);
      [congruence|cbn; congruence|done|done|done].
Qed.

Lemma password_update_takes_effect_witness :
  let s := exec_users sample_users (no_users 0 None) in
  let s' := snd (update_user_password "bob" "hash-e" "t5" s) in
  let r := Some (mkUser (Some (IdText 1%nat)) "bob" (Some "hash-e") "viewer"
                        "tok-2" "t2" "t5" true) in
  exists old,
    get_user_by_username "bob" s = Some old
    /\ r = Some (set_password "hash-e" "t5" old)
    /\ password_hash (set_password "hash-e" "t5" old) = Some "hash-e"
    /\ get_user_by_username "bob" s' = r
    /\ (forall m, m <> "bob" ->
          get_user_by_username m s' = get_user_by_username m s).
Proof.
  apply (password_update_takes_effect "bob" "hash-e" "t5"
           (exec_users sample_users (no_users 0 None))).
  - apply exec_users_keeps, users_ok_nil.
  - reflexivity.
Defined.

Lemma api_keys_apart l1 (u : User) l2 :
  NoDup (api_key <$> l1 ++ u :: l2) ->
  forall x, x ∈ l1 ++ l2 -> api_key x <> api_key u.
Proof.
  rewrite fmap_app, fmap_cons. intros (_ & Hcross & Hr)%NoDup_app.
  apply NoDup_cons in Hr as [Hu _].
  intros x [Hx|Hx]%elem_of_app Heq.
  - apply (Hcross (api_key x)); [by apply list_elem_of_fmap_2|].
    rewrite Heq. by left.
  - apply Hu. rewrite <- Heq. by apply list_elem_of_fmap_2.
Qed.

(** X22. On a store whose usernames and API keys are unique and whose users
    are all active, a successful [regenerate_api_key] returns the named user
    with the new key and without the password hash. From then on the new key
    authenticates as that user, the key the user held before authenticates
    as nobody, and the users of every other name are untouched. *)
Theorem regenerated_key_replaces_old n k now s r s' :
  users_ok (users s) ->
  regenerate_api_key n k now s = (Ret r, s') ->
  exists old,
    get_user_by_username n s = Some old
    /\ r = Some (without_hash (set_api_key k now old))
    /\ get_user_by_api_key k s' = r
    /\ (api_key old <> k -> get_user_by_api_key (api_key old) s' = None)
    /\ (forall m, m <> n ->
          get_user_by_username m s' = get_user_by_username m s).
Proof.
  intros (Hn & Hk & Ha). unfold regenerate_api_key.
  destruct (users_outage s) as [msg|] eqn:Ho; [done|].
  destruct (find_user (has_username n) (users s)) as [old|] eqn:Hfind;
    [|done].
  destruct (String.eqb (api_key old) k && String.eqb (user_updated_at old) now);
    [done|].
  destruct (find_user_split _ _ _ Hfind) as (l1 & l2 & Hl & Hl1 & Hold).
  assert (is_active old = true) as Hact.
  { rewrite Forall_forall in Ha. apply Ha. rewrite Hl.
    apply elem_of_app. right. by left. }
  rewrite Hl in Hk. pose proof (api_keys_apart _ _ _ Hk) as Hapart.
  assert (negb (String.eqb (api_key old) k)
          && existsb (has_api_key k) (users s) = false ->
          forall x, x ∈ l1 ++ l2 -> api_key x <> k) as Hfree.
  { intros Hc x Hx. apply andb_false_iff in Hc as [Hc|Hc].
    - apply negb_false_iff, String.eqb_eq in Hc. rewrite <- Hc.
      by apply Hapart.
    - rewrite existsb_false in Hc. specialize (Hc x).
      unfold has_api_key in Hc. apply String.eqb_neq, Hc. rewrite Hl.
      apply elem_of_app in Hx as [?|?]; apply elem_of_app; [by left|].
      right. by right. }
  destruct (negb _ && _) eqn:Hc; [done|]. specialize (Hfree eq_refl).
  cbn zeta. intros [= <- <-]. cbn.
  rewrite Hl, update_first_at by done.
  exists (str_id old). split; [|split; [|split; [|split]]].
  - by apply (get_user_by_username_at n s l1 old l2).
  - rewrite (find_user_at (has_username n)); done.
  - unfold get_user_by_api_key. cbn. rewrite Ho.
    rewrite (find_user_at (has_username n)) by done.
    rewrite (find_user_at _ l1 (set_api_key k now old)); [done| |].
    + intros x Hx. apply andb_false_intro1. unfold has_api_key.
      apply String.eqb_neq, Hfree, elem_of_app. by left.
    + unfold has_api_key. cbn. by rewrite String.eqb_refl, Hact.
  - intros Hdiff. unfold get_user_by_api_key. cbn. rewrite Ho.
    assert (find_user (fun u => has_api_key (api_key old) u && is_active u)
              (l1 ++ set_api_key k now old :: l2) = None) as ->; [|done].
    apply find_user_None. intros x Hx. apply andb_false_intro1.
    unfold has_api_key. apply String.eqb_neq.
    apply elem_of_app in Hx as [Hx|[->|Hx]%elem_of_cons].
    + apply Hapart, elem_of_app. by left.
    + cbn. cbn in Hdiff. congruence.
    + apply Hapart, elem_of_app. by right.
  - intros m Hm. unfold has_username in Hold. apply String.eqb_eq in Hold.
    apply (other_name_unmoved m (set_api_key k now) l1 old l2);
      [congruence|cbn; congruence|done|done|done].
Qed.

Lemma regenerated_key_replaces_old_witness :
  let s := exec_users sample_users (no_users 0 None) in
  let s' := snd (regenerate_api_key "bob" "key-b" "t5" s) in
  let r := Some (mkUser (Some (IdText 1%nat)) "bob" None "viewer" "key-b"
                        "t2" "t5" true) in
  exists old,
    get_user_by_username "bob" s = Some old
    /\ r = Some (without_hash (set_api_key "key-b" "t5" old))
    /\ get_user_by_api_key "key-b" s' = r
    /\ (api_key old <> "key-b" ->
        get_user_by_api_key (api_key old) s' = None)
    /\ (forall m, m <> "bob" ->
          get_user_by_username m s' = get_user_by_username m s).
Proof.
  apply (regenerated_key_replaces_old "bob" "key-b" "t5"
           (exec_users sample_users (no_users 0 None))).
  - apply exec_users_keeps, users_ok_nil.
  - reflexivity.
Defined.

(** X23. On a store whose usernames are unique, [delete_user] with the
    server reachable returns 1 when the name was held and 0 when it was
    not, removes exactly that many documents, leaves nobody of that name,
    and leaves the users of every other name untouched. *)
Theorem delete_user_removes_name n s c s' :
  users_ok (users s) -> users_outage s = None ->
  delete_user n s = (c, s') ->
  c = (match get_user_by_username n s with Some _ => 1 | None => 0 end)
  /\ Z.of_nat (length (users s')) + c = Z.of_nat (length (users s))
  /\ get_user_by_username n s' = None
  /\ (forall m, m <> n ->
        get_user_by_username m s' = get_user_by_username m s).
Proof.
  intros (Hn & Hk & Ha) Ho. unfold delete_user. rewrite Ho.
  destruct (find_user (has_username n) (users s)) as [old|] eqn:Hfind.
  - intros [= <- <-].
    destruct (find_user_split _ _ _ Hfind) as (l1 & l2 & Hl & Hl1 & Hold).
    assert (is_active old = true) as Hact.
    { rewrite Forall_forall in Ha. apply Ha. rewrite Hl.
      apply elem_of_app. right. by left. }
    unfold get_user_by_username. cbn. rewrite Ho, Hl.
    rewrite delete_first_at by done.
    rewrite (find_user_at _ l1 old l2);
      [|intros x Hx; by rewrite (Hl1 x Hx)|by rewrite Hold, Hact].
    split; [done|]. split; [rewrite !length_app; cbn [length]; lia|].
    unfold has_username in Hold. apply String.eqb_eq in Hold.
    split.
    + apply fmap_None, find_user_None. intros x Hx. apply andb_false_intro1.
      unfold has_username. apply String.eqb_neq. intros Hx'.
      rewrite Hl, fmap_app, fmap_cons in Hn.
      apply NoDup_app in Hn as (_ & Hcross & Hr).
      apply NoDup_cons in Hr as [Hu _].
      apply elem_of_app in Hx as [Hx|Hx].
      * apply (Hcross (username x)); [by apply list_elem_of_fmap_2|].
        rewrite Hx', <- Hold. by left.
      * apply Hu. rewrite Hold, <- Hx'. by apply list_elem_of_fmap_2.
    + intros m Hm. symmetry. f_equal. apply find_user_skip.
      apply andb_false_intro1. unfold has_username. apply String.eqb_neq.
      congruence.
  - intros [= <- <-]. rewrite find_user_None in Hfind.
    assert (get_user_by_username n s = None) as Hnone.
    { unfold get_user_by_username. rewrite Ho.
      apply fmap_None, find_user_None.
      intros x Hx. by rewrite (Hfind x Hx). }
    rewrite Hnone. split; [done|]. split; [lia|]. done.
Qed.

Lemma delete_user_removes_name_witness :
  let s := exec_users sample_users (no_users 0 None) in
  let s' := snd (delete_user "ann" s) in
  1 = (match get_user_by_username "ann" s with Some _ => 1 | None => 0 end)
  /\ Z.of_nat (length (users s')) + 1 = Z.of_nat (length (users s))
  /\ get_user_by_username "ann" s' = None
  /\ (forall m, m <> "ann" ->
        get_user_by_username m s' = get_user_by_username m s).
Proof.
  apply (delete_user_removes_name "ann"
           (exec_users sample_users (no_users 0 None))).
  - apply exec_users_keeps, users_ok_nil.
  - reflexivity.
  - reflexivity.
Defined.

(** ** Roles *)

Lemma get_role_level_valid r :
  r ∈ valid_roles ->
  r = "viewer" /\ get_role_level r = 1
  \/ r = "editor" /\ get_role_level r = 2
  \/ r = "admin" /\ get_role_level r = 3.
Proof.
  unfold valid_roles. rewrite !elem_of_cons.
  intros [->|[->|[->|?%not_elem_of_nil]]]; [by left|right; by left| |done].
  right. by right.
Qed.

Lemma get_role_level_unknown r : r ∉ valid_roles -> get_role_level r = 0.
Proof.
  unfold valid_roles, get_role_level. rewrite !elem_of_cons.
  intros Hr.
  destruct (String.eqb_spec r "viewer") as [->|_]; [by destruct Hr; left|].
  destruct (String.eqb_spec r "editor") as [->|_];
    [by destruct Hr; right; left|].
  destruct (String.eqb_spec r "admin") as [->|_];
    [by destruct Hr; right; right; left|].
  done.
Qed.

(** X24. A user returned by a successful [create_user] passes
    [has_permission] for viewer whatever the role given, for editor exactly
    when the role given is not viewer, and for admin exactly when it is
    admin. A required role that is none of the three has level 0 and is
    granted to every such user. *)
Theorem created_user_permissions n h r k t now s u s' :
  create_user n h r k t now s = (Ret u, s') ->
  has_permission (Some u) "viewer" = true
  /\ (has_permission (Some u) "editor" = true <-> r <> "viewer")
  /\ (has_permission (Some u) "admin" = true <-> r = "admin")
  /\ (forall q, q ∉ valid_roles -> has_permission (Some u) q = true).
Proof.
  intros Hc. apply create_user_Ret in Hc as (Hr & _ & _ & -> & _).
  unfold has_permission. cbn [role without_hash].
  split; [|split; [|split]].
  - destruct (get_role_level_valid r Hr) as [[-> ->]|[[-> ->]|[-> ->]]]; done.
  - destruct (get_role_level_valid r Hr) as [[-> ->]|[[-> ->]|[-> ->]]];
      by vm_compute.
  - destruct (get_role_level_valid r Hr) as [[-> ->]|[[-> ->]|[-> ->]]];
      by vm_compute.
  - intros q Hq. rewrite (get_role_level_unknown q Hq).
    destruct (get_role_level_valid r Hr) as [[-> ->]|[[-> ->]|[-> ->]]]; done.
Qed.

Lemma created_user_permissions_witness :
  let u := mkUser (Some (IdObject 0%nat)) "bob" None "editor" "tok-2" "t2" "t2"
                  true in
  has_permission (Some u) "viewer" = true
  /\ (has_permission (Some u) "editor" = true <-> "editor" <> "viewer")
  /\ (has_permission (Some u) "admin" = true <-> "editor" = "admin")
  /\ (forall q, q ∉ valid_roles -> has_permission (Some u) q = true).
Proof.
  apply (created_user_permissions "bob" "hash-b" "editor" None "tok-2" "t2"
           (no_users 0 None) _ (mkUserStore
              [mkUser (Some (IdObject 0%nat)) "bob" (Some "hash-b") "editor"
                      "tok-2" "t2" "t2" true] 1 None)).
  reflexivity.
Defined.
